(** * so_pysm_models.alms : the PrecomputedAlms component

    A shallow embedding of [so_pysm_models/alms.py].  The class has two
    methods, the constructor [__init__] and [signal].  Both are modelled
    in a small state-and-exception monad over a store of numpy arrays:
    Python names are references, so [self.output_map] is a location and
    every array the code creates is a fresh cell of the store.

    The numerical libraries the module calls are outside the repository.
    Their array-shape behaviour (numpy's [tile], broadcasting, [reshape],
    indexing; healpy's [read_alm] and [alm2map]; pixell's [enmap.empty],
    [enmap.enmap] and [curvedsky.alm2map]) is written out below; the numbers
    they compute (file contents, synthesised pixel values, unit conversion
    factors) are injected through the record [Externals]. *)

From Stdlib Require Import String Bool Arith Lia List.
Import ListNotations.
Open Scope string_scope.
Open Scope nat_scope.
Open Scope list_scope.

Set Implicit Arguments.

(** ** Exceptions and the store monad *)

Inductive exn : Type :=
| OSError                      (* the coefficient file cannot be read *)
| AssertionError               (* a failed [assert] *)
| ValueError (msg : string)
| TypeError (msg : string)
| IndexError
| NameError (name : string)    (* pixell was not importable *)
| UnitError                    (* raised inside pysm.convert_units *)
| DanglingReference.           (* a location outside the store *)

Inductive result (A : Type) : Type :=
| Ok (a : A)
| Raise (e : exn).
Arguments Ok {A} a.
Arguments Raise {A} e.

Definition loc := nat.

Section Arrays.

(** [A] is the element type (float64 or complex128), [W] the type of
    world-coordinate-system objects. *)
Variables (A W : Type).

(** A numpy array: its shape and its elements in row-major order.  A
    pixell [ndmap] is an array that carries a wcs. *)
Record ndarray : Type := mk_ndarray {
  arr_shape : list nat;
  arr_data  : list A;
  arr_wcs   : option W
}.

(** Number of elements of an array of shape [s]. *)
Definition size (s : list nat) : nat := fold_right Nat.mul 1 s.

Definition well_formed (a : ndarray) : Prop :=
  length (arr_data a) = size (arr_shape a).

(** Python's [t[-2:]] on a tuple. *)
Definition last_two (B : Type) (t : list B) : list B :=
  skipn (length t - 2) t.

(** The [i]-th block of [n] consecutive elements. *)
Definition chunk (n i : nat) (d : list A) : list A :=
  firstn n (skipn (i * n) d).

(** numpy aligns shapes to the right: missing leading axes count as 1. *)
Definition pad_ones (d : nat) (s : list nat) : list nat :=
  repeat 1 (d - length s) ++ s.

(** A tuple of [n] ones. *)
Definition ones (n : nat) : list nat := repeat 1 n.

(** [np.tile] on a shape and a repetition tuple of equal length. *)
Fixpoint tile_data (sh reps : list nat) (d : list A) : list A :=
  match sh, reps with
  | s :: sh', r :: reps' =>
      let sub := size sh' in
      concat (repeat
                (flat_map (fun i => tile_data sh' reps' (chunk sub i d))
                          (seq 0 s))
                r)
  | _, _ => d
  end.

Fixpoint zip_mul (xs ys : list nat) : list nat :=
  match xs, ys with
  | x :: xs', y :: ys' => x * y :: zip_mul xs' ys'
  | _, _ => []
  end.

(** [np.tile(a, reps)]: always a new array. *)
Definition np_tile (a : ndarray) (reps : list nat) : ndarray :=
  let d := Nat.max (length (arr_shape a)) (length reps) in
  let sh := pad_ones d (arr_shape a) in
  let rp := pad_ones d reps in
  {| arr_shape := zip_mul sh rp;
     arr_data := tile_data sh rp (arr_data a);
     arr_wcs := arr_wcs a |}.

(** [a.reshape(newshape)]: fails when the sizes differ. *)
Definition np_reshape (a : ndarray) (newshape : list nat) : result ndarray :=
  if length (arr_data a) =? size newshape
  then Ok {| arr_shape := newshape; arr_data := arr_data a;
             arr_wcs := arr_wcs a |}
  else Raise (ValueError "cannot reshape array").

(** [len(a)] *)
Definition np_len (a : ndarray) : result nat :=
  match arr_shape a with
  | n :: _ => Ok n
  | [] => Raise (TypeError "len() of unsized object")
  end.

(** [a[0]] *)
Definition getitem0 (a : ndarray) : result ndarray :=
  match arr_shape a with
  | n :: rest =>
      if n =? 0 then Raise IndexError
      else Ok {| arr_shape := rest;
                 arr_data := chunk (size rest) 0 (arr_data a);
                 arr_wcs := arr_wcs a |}
  | [] => Raise IndexError
  end.

(** Broadcasting of one axis: equal lengths, or one of them is 1. *)
Definition broadcast_dim (a b : nat) : option nat :=
  if a =? b then Some a
  else if a =? 1 then Some b
  else if b =? 1 then Some a
  else None.

Fixpoint broadcast_shapes (sa sb : list nat) : option (list nat) :=
  match sa, sb with
  | a :: sa', b :: sb' =>
      match broadcast_dim a b, broadcast_shapes sa' sb' with
      | Some n, Some rest => Some (n :: rest)
      | _, _ => None
      end
  | [], [] => Some []
  | _, _ => None
  end.

Variable mul : A -> A -> A.

(** Elementwise product of two arrays whose shapes are aligned and
    broadcastable; an axis of length 1 is read at index 0 throughout. *)
Fixpoint bmul_data (sa sb : list nat) (da db : list A) : list A :=
  match sa, sb with
  | a :: sa', b :: sb' =>
      let n := if a =? 1 then b else a in
      flat_map (fun i =>
                  bmul_data sa' sb'
                    (chunk (size sa') (if a =? 1 then 0 else i) da)
                    (chunk (size sb') (if b =? 1 then 0 else i) db))
               (seq 0 n)
  | _, _ =>
      match da, db with
      | x :: _, y :: _ => [mul x y]
      | _, _ => []
      end
  end.

(** Every element multiplied by the number [f]. *)
Definition scale (f : A) (d : list A) : list A := map (fun x => mul x f) d.

(** [a * b] on arrays; the result keeps the wcs of an ndmap operand. *)
Definition np_multiply (a b : ndarray) : result ndarray :=
  let d := Nat.max (length (arr_shape a)) (length (arr_shape b)) in
  let sa := pad_ones d (arr_shape a) in
  let sb := pad_ones d (arr_shape b) in
  match broadcast_shapes sa sb with
  | Some s =>
      Ok {| arr_shape := s;
            arr_data := bmul_data sa sb (arr_data a) (arr_data b);
            arr_wcs := match arr_wcs a with
                       | Some w => Some w
                       | None => arr_wcs b
                       end |}
  | None => Raise (ValueError "operands could not be broadcast together")
  end.

End Arrays.

Arguments mk_ndarray {A W} _ _ _.
Arguments arr_shape {A W} _.
Arguments arr_data {A W} _.
Arguments arr_wcs {A W} _.
Arguments well_formed {A W} _.
Arguments chunk {A} _ _ _.
Arguments tile_data {A} _ _ _.
Arguments np_tile {A W} _ _.
Arguments np_reshape {A W} _ _.
Arguments np_len {A W} _.
Arguments getitem0 {A W} _.
Arguments bmul_data {A} _ _ _ _ _.
Arguments scale {A} _ _ _.
Arguments np_multiply {A W} _ _ _.

(** ** The store monad

    A computation takes the store and returns the new store together with
    a value or a raised exception.  An exception does not undo the
    allocations made before it. *)

Section Monad.

Variable cell : Type.

Definition heap : Type := list cell.
Definition M (B : Type) : Type := heap -> heap * result B.

Definition ret (B : Type) (b : B) : M B := fun h => (h, Ok b).

Definition raise (B : Type) (e : exn) : M B := fun h => (h, Raise e).

Definition bind (B C : Type) (m : M B) (k : B -> M C) : M C :=
  fun h =>
    match m h with
    | (h', Ok b) => k b h'
    | (h', Raise e) => (h', Raise e)
    end.

Definition lift (B : Type) (r : result B) : M B := fun h => (h, r).

(** A new object: the next free location. *)
Definition alloc (c : cell) : M loc := fun h => (h ++ [c], Ok (length h)).

Definition load (l : loc) : M cell :=
  fun h =>
    match nth_error h l with
    | Some c => (h, Ok c)
    | None => (h, Raise DanglingReference)
    end.

Fixpoint update (h : heap) (l : loc) (c : cell) : heap :=
  match h, l with
  | [], _ => []
  | _ :: h', 0 => c :: h'
  | x :: h', S l' => x :: update h' l' c
  end.

(** In-place overwrite of an existing object. *)
Definition store (l : loc) (c : cell) : M unit :=
  fun h =>
    if l <? length h then (update h l c, Ok tt)
    else (h, Raise DanglingReference).

(** A computation that only allocates leaves a store that extends the
    one it started from. *)
Definition extends (B : Type) (m : M B) : Prop :=
  forall h, exists extra, fst (m h) = h ++ extra.

End Monad.

Arguments ret {cell B} b.
Arguments raise {cell B} e.
Arguments bind {cell B C} m k.
Arguments lift {cell B} r.
Arguments alloc {cell} c.
Arguments load {cell} l.
Arguments store {cell} l c.
Arguments extends {cell B} m.

Notation "x <- m ;; k" := (bind m (fun x => k))
  (at level 61, m at next level, right associativity).
Notation "m ;;; k" := (bind m (fun _ => k))
  (at level 61, right associativity).

(** ** The external libraries *)

Section Model.

(** [num] stands for float64, [cplx] for complex128, [W] for the wcs
    objects of pixell; [fmul] is the float64 product. *)
Variables (num cplx W : Type).
Variable fmul : num -> num -> num.

(** What the module takes from outside: the coefficient file, the two
    synthesis routines, the optional import and the unit conversion. *)
Record Externals : Type := {
  (* coefficients stored in one HDU of a file; None when unreadable *)
  read_hdu : string -> nat -> option (list cplx);
  (* healpy's validation of the arguments of alm2map *)
  alm2map_accepts : list (list cplx) -> nat -> bool;
  (* healpy.alm2map: value of pixel [p] of component [c] at [nside] *)
  healpix_pixel : list (list cplx) -> nat -> nat -> nat -> num;
  (* whether [from pixell import curvedsky, enmap] succeeded *)
  pixell_imported : bool;
  (* curvedsky.alm2map: value at flat index [i] of a map of given shape *)
  curvedsky_pixel : list (list cplx) -> list nat -> option W -> nat -> num;
  (* what np.empty leaves in the buffer *)
  uninitialised : num;
  (* pysm.convert_units at one frequency; None for an unknown unit *)
  conversion_factor : string -> string -> num -> option num
}.

Variable E : Externals.

Local Abbreviation alm_array := (ndarray cplx W).
Local Abbreviation map_array := (ndarray num W).

Inductive hdu_arg : Type :=
| HduInt (h : nat)
| HduSeq (hs : list nat).

Fixpoint read_all (filename : string) (hs : list nat)
  : option (list (list cplx)) :=
  match hs with
  | [] => Some []
  | h :: hs' =>
      match read_hdu E filename h, read_all filename hs' with
      | Some a, Some r => Some (a :: r)
      | _, _ => None
      end
  end.

(** [hp.read_alm(filename, hdu)]: one HDU gives a 1-D array, several
    HDUs give a 2-D array with one row per HDU. *)
Definition hp_read_alm (filename : string) (hdu : hdu_arg)
  : result alm_array :=
  match hdu with
  | HduInt h =>
      match read_hdu E filename h with
      | Some a => Ok (mk_ndarray [length a] a None)
      | None => Raise OSError
      end
  | HduSeq hs =>
      match read_all filename hs with
      | None => Raise OSError
      | Some [a] => Ok (mk_ndarray [length a] a None)
      | Some alms =>
          let n := length (hd [] alms) in
          if forallb (fun a => length a =? n) alms
          then Ok (mk_ndarray (length alms :: match alms with
                                              | [] => []
                                              | _ => [n]
                                              end)
                              (concat alms) None)
          else Raise (ValueError "inhomogeneous shape")
      end
  end.

(** [np.complex128(a)] keeps the shape; the elements are complex128
    already. *)
Definition np_complex128 (a : alm_array) : alm_array := a.

(** The coefficient sets held by an alm array. *)
Definition alm_sets (alm : alm_array) : list (list cplx) :=
  match arr_shape alm with
  | [_] => [arr_data alm]
  | [k; n] => map (fun i => chunk n i (arr_data alm)) (seq 0 k)
  | _ => []
  end.

(** [hp.nside2npix] *)
Definition nside2npix (nside : nat) : nat := 12 * nside * nside.

(** [hp.alm2map(alm, nside)]: a single coefficient set gives a 1-D map
    of [npix] pixels, [k] sets give a [(k, npix)] array. *)
Definition hp_alm2map (alm : alm_array) (nside : nat) : result map_array :=
  let sets := alm_sets alm in
  if negb (alm2map_accepts E sets nside)
  then Raise (ValueError "healpy: bad input")
  else
    let npix := nside2npix nside in
    match arr_shape alm with
    | [_] =>
        Ok (mk_ndarray [npix]
              (map (healpix_pixel E sets nside 0) (seq 0 npix)) None)
    | [k; _] =>
        Ok (mk_ndarray [k; npix]
              (flat_map (fun c => map (healpix_pixel E sets nside c)
                                      (seq 0 npix))
                        (seq 0 k))
              None)
    | _ => Raise (TypeError "healpy: bad alm")
    end.

Local Abbreviation St := (M map_array).

(** Any use of the names [enmap] and [curvedsky] fails when the guarded
    import at the top of the module failed. *)
Definition pixell (name : string) : St unit :=
  if pixell_imported E then ret tt else raise (NameError name).

(** [enmap.empty(shape, wcs)] *)
Definition enmap_empty (s : list nat) (w : W) : St loc :=
  pixell "enmap" ;;;
  alloc (mk_ndarray s (repeat (uninitialised E) (size s)) (Some w)).

(** [curvedsky.alm2map(alm, m, spin=[0, 2], verbose=True)] overwrites
    the map [m] in place. *)
Definition curvedsky_alm2map (alm : alm_array) (m : loc) : St loc :=
  pixell "curvedsky" ;;;
  a <- load m ;;
  store m (mk_ndarray (arr_shape a)
             (map (curvedsky_pixel E (alm_sets alm) (arr_shape a) (arr_wcs a))
                  (seq 0 (size (arr_shape a))))
             (arr_wcs a)) ;;;
  ret m.

(** [enmap.enmap(a, wcs)]: a new ndmap with the data of [a]. *)
Definition enmap_enmap (l : loc) (w : W) : St loc :=
  pixell "enmap" ;;;
  a <- load l ;;
  alloc (mk_ndarray (arr_shape a) (arr_data a) (Some w)).

(** [pysm.convert_units(unit1, unit2, nu)]: one factor per frequency. *)
Fixpoint convert_units (unit1 unit2 : string) (nu : list num)
  : option (list num) :=
  match nu with
  | [] => Some []
  | x :: nu' =>
      match conversion_factor E unit1 unit2 x, convert_units unit1 unit2 nu' with
      | Some f, Some fs => Some (f :: fs)
      | _, _ => None
      end
  end.

Definition pysm_convert_units (unit1 unit2 : string) (nu : list num)
  : result map_array :=
  match convert_units unit1 unit2 nu with
  | Some fs => Ok (mk_ndarray [length fs] fs None)
  | None => Raise UnitError
  end.

(** [a.astype(float)] on an array of floats. *)
Definition astype_float (a : map_array) : map_array := a.

(** ** The class PrecomputedAlms *)

(** The attributes set by the constructor.  [output_map] refers to the
    cached map in the store. *)
Record PrecomputedAlms : Type := {
  nside : option nat;
  shape : option (list nat);
  wcs : option W;
  filename : string;
  input_units : string;
  pixel_indices : option (list nat);
  has_polarization : bool;
  output_map : loc
}.

Definition is_None (B : Type) (o : option B) : bool :=
  match o with None => true | Some _ => false end.

Definition is_not_None (B : Type) (o : option B) : bool :=
  negb (is_None o).

(** [PrecomputedAlms.__init__] *)
Definition __init__
    (filename : string)
    (target_nside : option nat)
    (target_shape : option (list nat))
    (target_wcs : option W)
    (input_units : string)
    (has_polarization : bool)
    (pixel_indices : option (list nat)) : St PrecomputedAlms :=
  let self om :=
    {| nside := target_nside; shape := target_shape; wcs := target_wcs;
       filename := filename; input_units := input_units;
       pixel_indices := pixel_indices;
       has_polarization := has_polarization; output_map := om |} in
  alm <- lift (hp_read_alm filename
                 (if has_polarization then HduSeq [1; 2; 3] else HduInt 1)) ;;
  let alm := np_complex128 alm in
  if is_None target_nside then
    match target_shape, target_wcs with
    | Some sh, Some w =>
        let n_comp := if has_polarization then 3 else 1 in
        om <- enmap_empty (n_comp :: last_two sh) w ;;
        curvedsky_alm2map alm om ;;;
        ret (self om)
    | _, _ => raise AssertionError
    end
  else if is_not_None target_nside then
    match target_nside with
    | Some n =>
        m <- lift (hp_alm2map alm n) ;;
        om <- alloc m ;;
        ret (self om)
    | None => raise (TypeError "nside is None")
    end
  else
    raise (ValueError "You must specify either nside or both of shape and wcs").

(** The [hdu] argument the constructor passes to [hp.read_alm]. *)
Definition the_hdu (has_polarization : bool) : hdu_arg :=
  if has_polarization then HduSeq [1; 2; 3] else HduInt 1.

(** The object a successful construction returns. *)
Definition new_object (filename : string) (target_nside : option nat)
    (target_shape : option (list nat)) (target_wcs : option W)
    (input_units : string) (has_polarization : bool)
    (pixel_indices : option (list nat)) (om : loc) : PrecomputedAlms :=
  {| nside := target_nside; shape := target_shape; wcs := target_wcs;
     filename := filename; input_units := input_units;
     pixel_indices := pixel_indices;
     has_polarization := has_polarization; output_map := om |}.

(** The map written by [curvedsky.alm2map] into a buffer of shape [s]. *)
Definition curvedsky_map (alm : alm_array) (s : list nat) (w : W)
  : map_array :=
  mk_ndarray s
    (map (curvedsky_pixel E (alm_sets alm) s (Some w)) (seq 0 (size s)))
    (Some w).

(** The argument [nu] of [signal]: a bare number has no [len]. *)
Inductive freq_arg : Type :=
| Scalar (x : num)
| Sequence (l : list num).

(** [PrecomputedAlms.signal] *)
Definition signal (self : PrecomputedAlms) (nu : freq_arg)
    (output_units : string) : St loc :=
  let '(nnu, nu) :=
    match nu with
    | Sequence l => (length l, l)
    | Scalar x => (1, [x])
    end in
  m <- load (output_map self) ;;
  out <- alloc (np_tile m [nnu; 1; 1]) ;;
  out <- match wcs self with
         | Some w => enmap_enmap out w
         | None => ret out
         end ;;
  factor <- lift (pysm_convert_units (input_units self) output_units nu) ;;
  factor <- lift (np_reshape factor [nnu; 1; 1]) ;;
  let factor := astype_float factor in
  a <- load out ;;
  prod <- lift (np_multiply fmul a factor) ;;
  out <- alloc prod ;;
  a <- load out ;;
  n <- lift (np_len a) ;;
  if n =? 1 then
    first <- lift (getitem0 a) ;;
    alloc first
  else
    ret out.

(** The frequencies of a call, as the sequence [signal] works on. *)
Definition frequencies (nu : freq_arg) : list num :=
  match nu with
  | Sequence l => l
  | Scalar x => [x]
  end.

(** [enmap.enmap] seen on values. *)
Definition retag (w : option W) (a : map_array) : map_array :=
  match w with
  | Some w' => mk_ndarray (arr_shape a) (arr_data a) (Some w')
  | None => a
  end.

(** The tag of the array [signal] returns. *)
Definition result_wcs (self : PrecomputedAlms) (m : map_array) : option W :=
  match wcs self with
  | Some w => Some w
  | None => arr_wcs m
  end.

(** The array computed by [signal] from the contents [m] of the cached
    map, without the store. *)
Definition signal_value (self : PrecomputedAlms) (m : map_array)
    (nu : freq_arg) (output_units : string) : result map_array :=
  let nus := frequencies nu in
  let nnu := length nus in
  if is_not_None (wcs self) && negb (pixell_imported E)
  then Raise (NameError "enmap")
  else
    match pysm_convert_units (input_units self) output_units nus with
    | Raise e => Raise e
    | Ok factor =>
        match np_reshape factor [nnu; 1; 1] with
        | Raise e => Raise e
        | Ok factor =>
            match np_multiply fmul
                    (retag (wcs self) (np_tile m [nnu; 1; 1]))
                    (astype_float factor) with
            | Raise e => Raise e
            | Ok prod =>
                match np_len prod with
                | Raise e => Raise e
                | Ok n => if n =? 1 then getitem0 prod else Ok prod
                end
            end
        end
    end.

(** What a caller sees of a call: the exception, or the array the
    returned reference points to. *)
Definition outcome (r : heap map_array * result loc) : result map_array :=
  match r with
  | (h, Ok l) =>
      match nth_error h l with
      | Some a => Ok a
      | None => Raise DanglingReference
      end
  | (_, Raise e) => Raise e
  end.

(** A sequence of calls to [signal] on the same object. *)
Fixpoint signal_calls (self : PrecomputedAlms)
    (calls : list (freq_arg * string)) (h : heap map_array)
  : heap map_array :=
  match calls with
  | [] => h
  | (nu, output_units) :: rest =>
      signal_calls self rest (fst (signal self nu output_units h))
  end.

End Model.

(** ** A small instance

    Natural numbers for the floats, a file with three coefficients per
    HDU, and a conversion that is 1 between equal units.  It is used to
    run the model on concrete calls. *)

Definition sample_externals : Externals nat nat unit :=
  {| read_hdu := fun _ h => Some [h; h + 1; h + 2];
     alm2map_accepts := fun _ n => 0 <? n;
     healpix_pixel := fun _ _ c p => 100 * c + p + 1;
     pixell_imported := true;
     curvedsky_pixel := fun _ _ _ i => i + 1;
     uninitialised := 0;
     conversion_factor :=
       fun u1 u2 x => if String.eqb u1 u2 then Some 1 else Some (x + 1) |}.

(** A HEALPix object at [nside] and a rectangular one of shape [sh], both
    built in the empty store. *)
Definition sample_healpix (nside : nat) (pol : bool)
  : heap (ndarray nat unit) * result (PrecomputedAlms unit) :=
  __init__ sample_externals "alms.fits" (Some nside) None None "uK_RJ" pol
    None [].

Definition sample_rectangular (sh : list nat) (pol : bool)
  : heap (ndarray nat unit) * result (PrecomputedAlms unit) :=
  __init__ sample_externals "alms.fits" None (Some sh) (Some tt) "uK_RJ" pol
    None [].

(** [signal] on the object a construction returned. *)
Definition call_signal (c : heap (ndarray nat unit) * result (PrecomputedAlms unit))
    (nu : freq_arg nat) (output_units : string) : result (ndarray nat unit) :=
  match c with
  | (h, Ok self) => outcome (signal Nat.mul sample_externals self nu output_units h)
  | (_, Raise e) => Raise e
  end.

(** The store and the object of [sample_healpix 1 false], and the
    coefficient array its constructor reads. *)
Definition sample_store : heap (ndarray nat unit) :=
  fst (sample_healpix 1 false).

Definition sample_object : PrecomputedAlms unit :=
  new_object "alms.fits" (Some 1) None None "uK_RJ" false None 0.

Definition sample_alm : ndarray nat unit := mk_ndarray [3] [1; 2; 3] None.

(** Two calls made on the sample object. *)
Definition sample_calls : list (freq_arg nat * string) :=
  [(Sequence [100; 150], "K_CMB"); (Scalar 100, "uK_RJ")].

(** A poorer session: pixell is not importable, only "alms.fits" can be
    read and no conversion to the unit "parsec" exists. *)
Definition sample_bare : Externals nat nat unit :=
  {| read_hdu :=
       fun f h => if String.eqb f "alms.fits" then Some [h; h + 1; h + 2]
                  else None;
     alm2map_accepts := fun _ n => 0 <? n;
     healpix_pixel := fun _ _ c p => 100 * c + p + 1;
     pixell_imported := false;
     curvedsky_pixel := fun _ _ _ i => i + 1;
     uninitialised := 0;
     conversion_factor :=
       fun u1 u2 x => if String.eqb u2 "parsec" then None else Some 1 |}.

(** The object built with both descriptors, and the rectangular ones of
    shape [(2, 2)]. *)
Definition sample_both : PrecomputedAlms unit :=
  new_object "alms.fits" (Some 1) (Some [2; 2]) (Some tt) "uK_RJ" false None 0.

Definition sample_rectangular_object (pol : bool) : PrecomputedAlms unit :=
  new_object "alms.fits" None (Some [2; 2]) (Some tt) "uK_RJ" pol None 0.

(** * Properties *)

(** ** Blocks of a row-major array *)

Section ChunkFacts.

Variables (A B : Type).

Lemma chunk_zero (n : nat) (d : list A) : chunk n 0 d = firstn n d.
Proof. reflexivity. Qed.

Lemma chunk_succ (n i : nat) (d : list A) :
  chunk n (S i) d = chunk n i (skipn n d).
Proof.
  unfold chunk. rewrite skipn_skipn. do 2 f_equal. simpl. lia.
Qed.

Lemma chunk_whole (d : list A) : chunk (length d) 0 d = d.
Proof. rewrite chunk_zero. apply firstn_all. Qed.

Lemma chunk_app_zero (n : nat) (d r : list A) :
  length d = n -> chunk n 0 (d ++ r) = d.
Proof.
  intros <-. rewrite chunk_zero, firstn_app, Nat.sub_diag, firstn_all.
  simpl. apply app_nil_r.
Qed.

Lemma chunk_app_succ (n i : nat) (d r : list A) :
  length d = n -> chunk n (S i) (d ++ r) = chunk n i r.
Proof.
  intros <-. rewrite chunk_succ, skipn_app, Nat.sub_diag, skipn_all.
  reflexivity.
Qed.

Lemma flat_map_seq_shift (g : nat -> list B) (s : nat) :
  flat_map g (seq 1 s) = flat_map (fun i => g (S i)) (seq 0 s).
Proof.
  rewrite <- seq_shift, !flat_map_concat_map, map_map. reflexivity.
Qed.

Lemma flat_map_ext_in (f g : nat -> list B) (l : list nat) :
  (forall i, In i l -> f i = g i) -> flat_map f l = flat_map g l.
Proof.
  intros H. rewrite !flat_map_concat_map. f_equal.
  apply map_ext_in, H.
Qed.

(** A function that acts as [map phi] on every block acts as [map phi]
    on the whole array. *)
Lemma flat_map_chunk_map (g : list A -> list B) (phi : A -> B) (n s : nat) :
  (forall c, length c = n -> g c = map phi c) ->
  forall d, length d = s * n ->
  flat_map (fun i => g (chunk n i d)) (seq 0 s) = map phi d.
Proof.
  intros Hg. induction s as [|s IH]; intros d Hd.
  - destruct d; [reflexivity | discriminate].
  - change (seq 0 (S s)) with (0 :: seq 1 s).
    cbn [flat_map]. rewrite flat_map_seq_shift.
    rewrite (flat_map_ext_in _ (fun i => g (chunk n i (skipn n d)))).
    2:{ intros i _. now rewrite chunk_succ. }
    rewrite IH.
    2:{ rewrite length_skipn. simpl in Hd. lia. }
    rewrite Hg.
    2:{ rewrite chunk_zero, length_firstn. simpl in Hd. lia. }
    rewrite chunk_zero, <- map_app, firstn_skipn. reflexivity.
Qed.

Lemma concat_repeat_length (d : list A) (r : nat) :
  length (concat (repeat d r)) = r * length d.
Proof.
  induction r as [|r IH]; simpl; [reflexivity|].
  rewrite length_app, IH. reflexivity.
Qed.

Lemma flat_map_const_length (f : B -> list A) (l : list B) (n : nat) :
  (forall b, length (f b) = n) -> length (flat_map f l) = length l * n.
Proof.
  intros H. induction l as [|b l IH]; simpl; [reflexivity|].
  rewrite length_app, H, IH. reflexivity.
Qed.

End ChunkFacts.

(** ** np.tile and broadcasting on the shapes [signal] meets *)

Section ArrayFacts.

Variables (A W : Type).
Variable mul : A -> A -> A.

Lemma size_ones (n : nat) : size (ones n) = 1.
Proof.
  unfold ones, size. induction n as [|n IH]; simpl; [reflexivity|].
  rewrite IH. reflexivity.
Qed.

(** Repeating every axis once changes nothing. *)
Lemma tile_data_ones (sh : list nat) :
  forall d : list A, length d = size sh ->
  tile_data sh (ones (length sh)) d = d.
Proof.
  induction sh as [|s sh IH]; intros d Hd; [reflexivity|].
  cbn [length ones repeat tile_data concat]. rewrite app_nil_r.
  rewrite (flat_map_chunk_map (fun c => tile_data sh (repeat 1 (length sh)) c)
             (fun x => x)).
  - apply map_id.
  - intros c Hc. rewrite map_id. apply IH, Hc.
  - exact Hd.
Qed.

(** Repeating the leading axis [r] times lays [r] copies end to end. *)
Lemma tile_data_leading (s r : nat) (sh : list nat) (d : list A) :
  length d = size (s :: sh) ->
  tile_data (s :: sh) (r :: ones (length sh)) d = concat (repeat d r).
Proof.
  intros Hd. cbn [tile_data]. do 2 f_equal.
  rewrite (flat_map_chunk_map (fun c => tile_data sh (ones (length sh)) c)
             (fun x => x)).
  - apply map_id.
  - intros c Hc. rewrite map_id. apply tile_data_ones, Hc.
  - exact Hd.
Qed.

(** Multiplying by a one-element array scales every element. *)
Lemma bmul_data_scalar (sh : list nat) (f : A) :
  forall d : list A, length d = size sh ->
  bmul_data mul sh (ones (length sh)) d [f] = scale mul f d.
Proof.
  induction sh as [|a sh IH]; intros d Hd.
  - destruct d as [|x [|y d]]; try discriminate. reflexivity.
  - cbn [length ones repeat bmul_data]. fold (ones (length sh)).
    rewrite size_ones.
    replace (if a =? 1 then 1 else a) with a
      by (destruct (Nat.eqb_spec a 1); congruence).
    rewrite (flat_map_ext_in _
               (fun i => bmul_data mul sh (ones (length sh))
                           (chunk (size sh) i d) [f])).
    + apply (flat_map_chunk_map
               (fun c => bmul_data mul sh (ones (length sh)) c [f])).
      * intros c Hc. apply IH, Hc.
      * exact Hd.
    + intros i Hi. apply in_seq in Hi. simpl.
      destruct (Nat.eqb_spec a 1) as [->|_]; [|reflexivity].
      replace i with 0 by lia. reflexivity.
Qed.

(** Multiplying [n] stacked copies of [d] by a column of [n] factors
    scales the [i]-th copy by the [i]-th factor. *)
Lemma bmul_data_leading (sh : list nat) (d : list A) :
  length d = size sh ->
  forall fs : list A,
  flat_map (fun i =>
              bmul_data mul sh (ones (length sh))
                (chunk (size sh) i (concat (repeat d (length fs))))
                (chunk 1 i fs))
           (seq 0 (length fs))
  = flat_map (fun f => scale mul f d) fs.
Proof.
  intros Hd. induction fs as [|f fs IH]; [reflexivity|].
  cbn [length]. change (seq 0 (S (length fs))) with (0 :: seq 1 (length fs)).
  cbn [flat_map repeat concat]. rewrite flat_map_seq_shift.
  rewrite chunk_app_zero by exact Hd.
  rewrite chunk_zero. cbn [firstn].
  rewrite bmul_data_scalar by exact Hd. f_equal.
  rewrite <- IH. apply flat_map_ext_in. intros i _.
  rewrite chunk_app_succ by exact Hd.
  rewrite chunk_succ. reflexivity.
Qed.


(** The size of an array equals the size of its shape padded with
    leading ones. *)
Lemma size_pad_ones (d : nat) (s : list nat) : size (pad_ones d s) = size s.
Proof.
  unfold pad_ones, size.
  induction (d - length s) as [|k IH]; simpl; [reflexivity|].
  rewrite IH. lia.
Qed.

(** [np.tile(m, (nnu, 1, 1))] on a map of at most three axes. *)
Lemma np_tile_three (m : ndarray A W) (nnu s0 s1 s2 : nat) :
  pad_ones 3 (arr_shape m) = [s0; s1; s2] ->
  length (arr_shape m) <= 3 ->
  well_formed m ->
  np_tile m [nnu; 1; 1]
  = mk_ndarray [s0 * nnu; s1; s2] (concat (repeat (arr_data m) nnu))
      (arr_wcs m).
Proof.
  intros Hpad Hlen Hwf. unfold np_tile.
  assert (Hsz : length (arr_data m) = size [s0; s1; s2]).
  { rewrite <- Hpad, size_pad_ones. exact Hwf. }
  replace (Nat.max (length (arr_shape m)) (length [nnu; 1; 1])) with 3
    by (simpl; lia).
  rewrite Hpad. change (pad_ones 3 [nnu; 1; 1]) with (nnu :: ones 2).
  rewrite (tile_data_leading s0 nnu [s1; s2]) by exact Hsz.
  simpl. rewrite !Nat.mul_1_r. reflexivity.
Qed.

Lemma broadcast_dim_one_r (a : nat) : broadcast_dim a 1 = Some a.
Proof.
  unfold broadcast_dim. destruct (Nat.eqb_spec a 1); [congruence|].
  reflexivity.
Qed.

Lemma broadcast_dim_refl (a : nat) : broadcast_dim a a = Some a.
Proof. unfold broadcast_dim. now rewrite Nat.eqb_refl. Qed.

(** The product of the tiled map with the column of factors: defined
    when the map has a leading axis of length 1 or there is at most one
    frequency, and then every copy is scaled by its factor. *)
Lemma multiply_tiled (d fs : list A) (s0 s1 s2 : nat) (w : option W) :
  length d = size [s0; s1; s2] ->
  np_multiply mul
    (mk_ndarray [s0 * length fs; s1; s2] (concat (repeat d (length fs))) w)
    (mk_ndarray [length fs; 1; 1] fs None)
  = if (s0 =? 1) || (length fs <=? 1)
    then Ok (mk_ndarray [s0 * length fs; s1; s2]
               (flat_map (fun f => scale mul f d) fs) w)
    else Raise (ValueError "operands could not be broadcast together").
Proof.
  intros Hd. unfold np_multiply.
  cbn [arr_shape arr_data arr_wcs length Nat.max pad_ones Nat.sub repeat app
       broadcast_shapes].
  rewrite !broadcast_dim_one_r.
  assert (Hw : match w with Some w' => Some w' | None => None end = w)
    by (destruct w; reflexivity).
  rewrite Hw.
  destruct (Nat.eqb_spec s0 1) as [->|Hs0].
  - rewrite Nat.mul_1_l, broadcast_dim_refl. cbn [orb].
    do 2 f_equal. cbn [bmul_data].
    replace (if length fs =? 1 then length fs else length fs) with (length fs)
      by (destruct (length fs =? 1); reflexivity).
    change (size [1; 1]) with 1.
    rewrite <- (bmul_data_leading [s1; s2] d); [|simpl in Hd; simpl; lia].
    apply flat_map_ext_in. intros i Hi. apply in_seq in Hi.
    destruct (Nat.eqb_spec (length fs) 1) as [H1|_]; [|reflexivity].
    replace i with 0 by lia. reflexivity.
  - cbn [orb]. destruct fs as [|f [|g fs]].
    + cbn [length Nat.leb]. rewrite Nat.mul_0_r, broadcast_dim_refl.
      reflexivity.
    + cbn [length Nat.leb]. rewrite Nat.mul_1_r, broadcast_dim_one_r.
      do 2 f_equal. cbn [repeat concat flat_map]. rewrite !app_nil_r.
      apply (bmul_data_scalar [s0; s1; s2]). exact Hd.
    + cbn [length Nat.leb]. unfold broadcast_dim.
      destruct (Nat.eqb_spec (s0 * S (S (length fs))) (S (S (length fs))));
        [exfalso; nia|].
      destruct (Nat.eqb_spec (s0 * S (S (length fs))) 1); [exfalso; nia|].
      reflexivity.
Qed.

End ArrayFacts.

(** ** The store during a call *)

Section StoreFacts.

Variable cell : Type.

Lemma nth_error_snoc (h : heap cell) (c : cell) :
  nth_error (h ++ [c]) (length h) = Some c.
Proof.
  rewrite nth_error_app2 by lia. rewrite Nat.sub_diag. reflexivity.
Qed.

Lemma nth_error_extend (h extra : heap cell) (l : loc) (c : cell) :
  nth_error h l = Some c -> nth_error (h ++ extra) l = Some c.
Proof.
  intros H. rewrite nth_error_app1; [exact H|].
  apply nth_error_Some. congruence.
Qed.

Lemma extends_ret (B : Type) (b : B) : extends (cell:=cell) (ret b).
Proof. intros h. exists []. simpl. now rewrite app_nil_r. Qed.

Lemma extends_raise (B : Type) (e : exn) :
  extends (cell:=cell) (raise (B:=B) e).
Proof. intros h. exists []. simpl. now rewrite app_nil_r. Qed.

Lemma extends_lift (B : Type) (r : result B) : extends (cell:=cell) (lift r).
Proof. intros h. exists []. simpl. now rewrite app_nil_r. Qed.

Lemma extends_alloc (c : cell) : extends (alloc c).
Proof. intros h. exists [c]. reflexivity. Qed.

Lemma extends_load (l : loc) : extends (load (cell:=cell) l).
Proof.
  intros h. exists []. unfold load.
  destruct (nth_error h l); simpl; now rewrite app_nil_r.
Qed.

Lemma extends_bind (B C : Type) (m : M cell B) (k : B -> M cell C) :
  extends m -> (forall b, extends (k b)) -> extends (bind m k).
Proof.
  intros Hm Hk h. unfold bind.
  destruct (Hm h) as [e1 H1]. destruct (m h) as [h1 [b|e]]; simpl in H1.
  - destruct (Hk b h1) as [e2 H2]. exists (e1 ++ e2).
    rewrite H2, H1. now rewrite app_assoc.
  - exists e1. exact H1.
Qed.

End StoreFacts.

Section SignalFacts.

Variables (num cplx W : Type).
Variable fmul : num -> num -> num.
Variable E : Externals num cplx W.

Local Abbreviation PA := (PrecomputedAlms W).
Local Abbreviation arr := (ndarray num W).

Ltac run_store :=
  repeat (first
    [ rewrite nth_error_snoc
    | progress unfold bind at 1
    | progress unfold lift at 1
    | progress unfold load at 1
    | progress unfold alloc at 1
    | progress unfold ret at 1
    | progress unfold raise at 1 ];
    cbv beta iota).

Lemma signal_outcome (self : PA) (nu : freq_arg num) (output_units : string)
    (h : heap arr) (m : arr) :
  nth_error h (output_map self) = Some m ->
  outcome (signal fmul E self nu output_units h)
  = signal_value fmul E self m nu output_units.
Proof.
  intros Hm. unfold signal, signal_value.
  set (nus := frequencies nu). set (nnu := length nus).
  replace (match nu with Sequence l => (length l, l) | Scalar x => (1, [x]) end)
    with (nnu, nus) by (destruct nu; reflexivity).
  cbv beta iota zeta.
  unfold bind at 1. unfold load at 1. rewrite Hm. cbv beta iota.
  destruct (wcs self) as [w|]; simpl is_not_None; cbv beta iota.
  - unfold enmap_enmap, pixell.
    destruct (pixell_imported E); simpl negb; simpl andb; cbv beta iota.
    + run_store.
      destruct (pysm_convert_units E (input_units self) output_units nus)
        as [factor|e]; [|reflexivity].
      run_store.
      destruct (np_reshape factor [nnu; 1; 1]) as [factor'|e]; [|reflexivity].
      run_store. unfold retag.
      match goal with |- context [np_multiply fmul ?a ?b] =>
        destruct (np_multiply fmul a b) as [prod|e]; [|reflexivity] end.
      run_store.
      destruct (np_len prod) as [n|e]; [|reflexivity].
      destruct (n =? 1); run_store.
      * destruct (getitem0 prod) as [first|e]; [|reflexivity].
        run_store. simpl. rewrite nth_error_snoc. reflexivity.
      * simpl. rewrite nth_error_snoc. reflexivity.
    + run_store. reflexivity.
  - run_store.
    destruct (pysm_convert_units E (input_units self) output_units nus)
      as [factor|e]; [|reflexivity].
    run_store.
    destruct (np_reshape factor [nnu; 1; 1]) as [factor'|e]; [|reflexivity].
    run_store. unfold retag.
    match goal with |- context [np_multiply fmul ?a ?b] =>
      destruct (np_multiply fmul a b) as [prod|e]; [|reflexivity] end.
    run_store.
    destruct (np_len prod) as [n|e]; [|reflexivity].
    destruct (n =? 1); run_store.
    * destruct (getitem0 prod) as [first|e]; [|reflexivity].
      run_store. simpl. rewrite nth_error_snoc. reflexivity.
    * simpl. rewrite nth_error_snoc. reflexivity.
Qed.


Lemma enmap_enmap_extends (l : loc) (w : W) : extends (enmap_enmap E l w).
Proof.
  unfold enmap_enmap, pixell.
  apply extends_bind.
  - destruct (pixell_imported E); [apply extends_ret | apply extends_raise].
  - intros _. apply extends_bind; [apply extends_load|].
    intros a. apply extends_alloc.
Qed.

(** [signal] only allocates. *)
Lemma signal_extends (self : PA) (nu : freq_arg num) (output_units : string) :
  extends (signal fmul E self nu output_units).
Proof.
  unfold signal.
  destruct (match nu with Sequence l => (length l, l) | Scalar x => (1, [x]) end)
    as [nnu nus].
  repeat (first
    [ apply extends_load | apply extends_alloc | apply extends_lift
    | apply extends_ret | apply enmap_enmap_extends
    | apply extends_bind; [|intros ?]
    | match goal with
      | |- extends (match ?o with Some _ => _ | None => _ end) => destruct o
      | |- extends (if ?b then _ else _) => destruct b
      end ]).
Qed.


Lemma convert_units_length (u1 u2 : string) (nus : list num) :
  forall fs, convert_units E u1 u2 nus = Some fs -> length fs = length nus.
Proof.
  induction nus as [|x nus IH]; simpl; intros fs H.
  - injection H as <-. reflexivity.
  - destruct (conversion_factor E u1 u2 x); [|discriminate].
    destruct (convert_units E u1 u2 nus); [|discriminate].
    injection H as <-. simpl. f_equal. apply IH. reflexivity.
Qed.

(** The value of [signal] on a cached map of at most three axes. *)
Lemma signal_value_spec (self : PA) (m : arr) (nu : freq_arg num)
    (output_units : string) (s0 s1 s2 : nat) (fs : list num) :
  pad_ones 3 (arr_shape m) = [s0; s1; s2] ->
  length (arr_shape m) <= 3 ->
  well_formed m ->
  wcs self = None \/ pixell_imported E = true ->
  convert_units E (input_units self) output_units (frequencies nu) = Some fs ->
  signal_value fmul E self m nu output_units
  = if (s0 =? 1) || (length fs <=? 1)
    then Ok (mk_ndarray
               (if s0 * length fs =? 1 then [s1; s2]
                else [s0 * length fs; s1; s2])
               (flat_map (fun f => scale fmul f (arr_data m)) fs)
               (result_wcs self m))
    else Raise (ValueError "operands could not be broadcast together").
Proof.
  intros Hpad Hlen Hwf Hpix Hconv. unfold signal_value.
  assert (Hguard : is_not_None (wcs self) && negb (pixell_imported E) = false).
  { destruct Hpix as [-> | ->]; [reflexivity|]. apply andb_false_r. }
  rewrite Hguard. unfold pysm_convert_units. rewrite Hconv.
  pose proof (convert_units_length _ _ _ Hconv) as Hfs. rewrite <- Hfs.
  unfold np_reshape. cbn [arr_data arr_shape arr_wcs].
  replace (length fs =? size [length fs; 1; 1]) with true
    by (symmetry; apply Nat.eqb_eq; simpl; lia).
  unfold astype_float.
  rewrite (@np_tile_three _ _ m (length fs) _ _ _ Hpad Hlen Hwf).
  assert (Hsz : length (arr_data m) = size [s0; s1; s2]).
  { rewrite <- Hpad, size_pad_ones. exact Hwf. }
  assert (Htag : retag (wcs self)
                   (mk_ndarray [s0 * length fs; s1; s2]
                      (concat (repeat (arr_data m) (length fs))) (arr_wcs m))
                 = mk_ndarray [s0 * length fs; s1; s2]
                     (concat (repeat (arr_data m) (length fs)))
                     (result_wcs self m)).
  { unfold retag, result_wcs. destruct (wcs self); reflexivity. }
  rewrite Htag, (@multiply_tiled _ _ fmul _ fs s0 s1 s2 _ Hsz).
  destruct ((s0 =? 1) || (length fs <=? 1)); [|reflexivity].
  unfold np_len, getitem0. cbn [arr_shape arr_data arr_wcs].
  destruct (Nat.eqb_spec (s0 * length fs) 1) as [H1|_]; [|reflexivity].
  rewrite H1. cbn [Nat.eqb]. do 2 f_equal.
  rewrite chunk_zero. apply firstn_all2.
  apply Nat.eq_mul_1 in H1. destruct H1 as [-> Hone].
  destruct fs as [|f [|g fs]]; try discriminate.
  cbn [flat_map]. rewrite app_nil_r. unfold scale. rewrite length_map, Hsz.
  simpl. lia.
Qed.


(** ** The constructor *)

Lemma update_snoc (h : heap arr) (c c' : arr) :
  update (h ++ [c]) (length h) c' = h ++ [c'].
Proof.
  induction h as [|x h IH]; simpl; [reflexivity|]. now rewrite IH.
Qed.

(** The HEALPix branch. *)
Lemma init_healpix (fn : string) (n : nat) (sh : option (list nat))
    (w : option W) (iu : string) (pol : bool) (pix : option (list nat))
    (h : heap arr) :
  __init__ E fn (Some n) sh w iu pol pix h
  = match hp_read_alm E fn (the_hdu pol) with
    | Ok alm =>
        match hp_alm2map E alm n with
        | Ok m => (h ++ [m], Ok (new_object fn (Some n) sh w iu pol pix (length h)))
        | Raise e => (h, Raise e)
        end
    | Raise e => (h, Raise e)
    end.
Proof.
  unfold __init__, the_hdu, np_complex128. run_store.
  destruct (hp_read_alm E fn (if pol then HduSeq [1; 2; 3] else HduInt 1))
    as [alm|e]; [|reflexivity].
  cbn [is_None is_not_None negb]. run_store.
  destruct (hp_alm2map E alm n) as [m|e]; reflexivity.
Qed.

(** The rectangular branch. *)
Lemma init_rectangular (fn : string) (sh : list nat) (w : W) (iu : string)
    (pol : bool) (pix : option (list nat)) (h : heap arr) :
  __init__ E fn None (Some sh) (Some w) iu pol pix h
  = match hp_read_alm E fn (the_hdu pol) with
    | Ok alm =>
        if pixell_imported E
        then (h ++ [curvedsky_map E alm
                      ((if pol then 3 else 1) :: last_two sh) w],
              Ok (new_object fn None (Some sh) (Some w) iu pol pix (length h)))
        else (h, Raise (NameError "enmap"))
    | Raise e => (h, Raise e)
    end.
Proof.
  unfold __init__, the_hdu, np_complex128. run_store.
  destruct (hp_read_alm E fn (if pol then HduSeq [1; 2; 3] else HduInt 1))
    as [alm|e]; [|reflexivity].
  cbn [is_None]. unfold enmap_empty, curvedsky_alm2map, pixell.
  destruct (pixell_imported E); run_store; [|reflexivity].
  unfold store. rewrite length_app. cbn [length].
  replace (length h <? length h + 1) with true
    by (symmetry; apply Nat.ltb_lt; lia).
  rewrite update_snoc. reflexivity.
Qed.

(** No [target_nside] and an incomplete rectangular descriptor. *)
Lemma init_neither (fn : string) (sh : option (list nat)) (w : option W)
    (iu : string) (pol : bool) (pix : option (list nat)) (h : heap arr) :
  sh = None \/ w = None ->
  __init__ E fn None sh w iu pol pix h
  = match hp_read_alm E fn (the_hdu pol) with
    | Ok alm => (h, Raise AssertionError)
    | Raise e => (h, Raise e)
    end.
Proof.
  intros Hmiss. unfold __init__, the_hdu. run_store.
  destruct (hp_read_alm E fn (if pol then HduSeq [1; 2; 3] else HduInt 1))
    as [alm|e]; [|reflexivity].
  cbn [is_None].
  destruct sh as [s|]; destruct w as [w'|]; try reflexivity.
  destruct Hmiss; discriminate.
Qed.

(** Shape of the coefficient array read by the constructor. *)
Lemma read_alm_shape (fn : string) (pol : bool) (alm : ndarray cplx W) :
  hp_read_alm E fn (the_hdu pol) = Ok alm ->
  exists n, arr_shape alm = if pol then [3; n] else [n].
Proof.
  unfold hp_read_alm, the_hdu. destruct pol; cbn [read_all].
  - destruct (read_hdu E fn 1) as [a1|]; [|discriminate].
    destruct (read_hdu E fn 2) as [a2|]; [|discriminate].
    destruct (read_hdu E fn 3) as [a3|]; [|discriminate].
    cbn [hd length].
    destruct (forallb _ _); [|discriminate].
    intros H. injection H as <-. exists (length a1). reflexivity.
  - destruct (read_hdu E fn 1) as [a1|]; [|discriminate].
    intros H. injection H as <-. exists (length a1). reflexivity.
Qed.

(** Shape of the map synthesised by healpy. *)
Lemma alm2map_shape (alm : ndarray cplx W) (n : nat) (m : arr) :
  hp_alm2map E alm n = Ok m ->
  well_formed m /\ arr_wcs m = None /\
  (forall k, arr_shape alm = [k] -> arr_shape m = [nside2npix n]) /\
  (forall c k, arr_shape alm = [c; k] -> arr_shape m = [c; nside2npix n]) /\
  1 <= length (arr_shape m) <= 2.
Proof.
  unfold hp_alm2map.
  destruct (alm2map_accepts E (alm_sets alm) n); cbn [negb]; [|discriminate].
  destruct (arr_shape alm) as [|a [|b [|c r]]]; try discriminate.
  - intros H. injection H as <-. unfold well_formed. cbn.
    rewrite length_map, length_seq.
    repeat split; try discriminate; try lia. 
  - intros H. injection H as <-. unfold well_formed. cbn [arr_data arr_shape arr_wcs].
    rewrite (@flat_map_const_length _ _ _ _ (nside2npix n)), length_seq.
    2:{ intros c. now rewrite length_map, length_seq. }
    repeat split; try discriminate; simpl; try lia.
    intros c k H. now injection H as -> ->.
Qed.

(** When healpy accepts its arguments the synthesis returns a map. *)
Lemma alm2map_returns (fn : string) (pol : bool) (alm : ndarray cplx W)
    (n : nat) :
  hp_read_alm E fn (the_hdu pol) = Ok alm ->
  alm2map_accepts E (alm_sets alm) n = true ->
  exists m, hp_alm2map E alm n = Ok m.
Proof.
  intros Hread Hacc. destruct (read_alm_shape _ _ Hread) as [k Hk].
  unfold hp_alm2map. rewrite Hacc, Hk. cbn [negb].
  destruct pol; eexists; reflexivity.
Qed.

Lemma length_last_two (B : Type) (t : list B) : length (last_two t) <= 2.
Proof. unfold last_two. rewrite length_skipn. lia. Qed.

(** What a successful construction leaves behind: one new cell holding
    a well-formed map of at most three axes, and the object that refers
    to it. *)
Lemma init_inv (fn : string) (tn : option nat) (ts : option (list nat))
    (tw : option W) (iu : string) (pol : bool) (pix : option (list nat))
    (h0 h : heap arr) (self : PA) :
  __init__ E fn tn ts tw iu pol pix h0 = (h, Ok self) ->
  exists m,
    h = h0 ++ [m] /\
    self = new_object fn tn ts tw iu pol pix (length h0) /\
    well_formed m /\
    1 <= length (arr_shape m) <= 3 /\
    (forall n, tn = Some n ->
       arr_shape m = if pol then [3; nside2npix n] else [nside2npix n]).
Proof.
  intros H. destruct tn as [n|].
  - rewrite init_healpix in H.
    destruct (hp_read_alm E fn (the_hdu pol)) as [alm|e] eqn:Hread;
      [|discriminate].
    destruct (hp_alm2map E alm n) as [m|e] eqn:Hmap; [|discriminate].
    injection H as <- <-. exists m.
    destruct (alm2map_shape _ _ Hmap) as (Hwf & _ & H1 & H2 & Hlen).
    destruct (read_alm_shape _ _ Hread) as [k Hk].
    repeat split; try assumption; try lia.
    intros n' Hn'. injection Hn' as <-.
    destruct pol; [apply (H2 _ _ Hk) | apply (H1 _ Hk)].
  - destruct ts as [sh|]; [destruct tw as [w|]|].
    + rewrite init_rectangular in H.
      destruct (hp_read_alm E fn (the_hdu pol)) as [alm|e]; [|discriminate].
      destruct (pixell_imported E); [|discriminate].
      injection H as <- <-. eexists. split; [reflexivity|].
      split; [reflexivity|].
      unfold well_formed, curvedsky_map. cbn [arr_data arr_shape length].
      rewrite length_map, length_seq.
      pose proof (length_last_two sh).
      repeat split; try lia. discriminate.
    + rewrite init_neither in H by (right; reflexivity).
      destruct (hp_read_alm E fn (the_hdu pol)); discriminate.
    + rewrite init_neither in H by (left; reflexivity).
      destruct (hp_read_alm E fn (the_hdu pol)); discriminate.
Qed.


(** ** The constructor followed by [signal] *)

Lemma pad_ones_three (sh : list nat) :
  length sh <= 3 -> exists s0 s1 s2, pad_ones 3 sh = [s0; s1; s2].
Proof.
  destruct sh as [|a [|b [|c [|d r]]]]; simpl; intros H; try lia;
    do 3 eexists; reflexivity.
Qed.

Lemma signal_value_without_pixell (self : PA) (m : arr) (nu : freq_arg num)
    (output_units : string) (w : W) :
  wcs self = Some w -> pixell_imported E = false ->
  signal_value fmul E self m nu output_units = Raise (NameError "enmap").
Proof. intros Hw Hp. unfold signal_value. rewrite Hw, Hp. reflexivity. Qed.

(** On a constructed object, a call whose unit conversion succeeds
    either returns the scaled copies of the cached map or fails in the
    broadcast. *)
Lemma constructed_signal (fn : string) (tn : option nat)
    (ts : option (list nat)) (tw : option W) (iu : string) (pol : bool)
    (pix : option (list nat)) (h0 h : heap arr) (self : PA) :
  __init__ E fn tn ts tw iu pol pix h0 = (h, Ok self) ->
  exists m s0 s1 s2,
    h = h0 ++ [m] /\
    nth_error h (output_map self) = Some m /\
    self = new_object fn tn ts tw iu pol pix (length h0) /\
    pad_ones 3 (arr_shape m) = [s0; s1; s2] /\
    (forall n, tn = Some n ->
       arr_shape m = (if pol then [3; nside2npix n] else [nside2npix n]) /\
       s0 = 1 /\ s1 = (if pol then 3 else 1) /\ s2 = nside2npix n) /\
    forall nu output_units fs,
      tw = None \/ pixell_imported E = true ->
      convert_units E iu output_units (frequencies nu) = Some fs ->
      outcome (signal fmul E self nu output_units h)
      = if (s0 =? 1) || (length fs <=? 1)
        then Ok (mk_ndarray
                   (if s0 * length fs =? 1 then [s1; s2]
                    else [s0 * length fs; s1; s2])
                   (flat_map (fun f => scale fmul f (arr_data m)) fs)
                   (result_wcs self m))
        else Raise (ValueError "operands could not be broadcast together").
Proof.
  intros Hinit.
  destruct (init_inv _ _ _ _ _ _ _ _ Hinit) as (m & -> & -> & Hwf & Hlen & Hshape).
  destruct (pad_ones_three (arr_shape m)) as (s0 & s1 & s2 & Hpad); [lia|].
  exists m, s0, s1, s2.
  assert (Hm : nth_error (h0 ++ [m]) (length h0) = Some m)
    by apply nth_error_snoc.
  repeat split; try assumption.
  - apply (Hshape _ H).
  - specialize (Hshape _ H). rewrite Hshape in Hpad.
    destruct pol; unfold pad_ones in Hpad;
      cbn [length Nat.sub repeat app] in Hpad; congruence.
  - specialize (Hshape _ H). rewrite Hshape in Hpad.
    destruct pol; unfold pad_ones in Hpad;
      cbn [length Nat.sub repeat app] in Hpad; congruence.
  - specialize (Hshape _ H). rewrite Hshape in Hpad.
    destruct pol; unfold pad_ones in Hpad;
      cbn [length Nat.sub repeat app] in Hpad; congruence.
  - intros nu output_units fs Hpix Hconv.
    rewrite (@signal_outcome (new_object fn tn ts tw iu pol pix (length h0))
               nu output_units _ _ Hm).
    apply signal_value_spec; try assumption; lia.
Qed.


(** The data of the array returned after a construction. *)
Lemma signal_data_after_init (fn : string) (tn : option nat)
    (ts : option (list nat)) (tw : option W) (iu : string) (pol : bool)
    (pix : option (list nat)) (h0 h : heap arr)
    (self : PA) (nu : freq_arg num) (output_units : string)
    (fs : list num) :
  __init__ E fn tn ts tw iu pol pix h0 = (h, Ok self) ->
  convert_units E (input_units self) output_units (frequencies nu) = Some fs ->
  exists m,
    nth_error h (output_map self) = Some m /\
    (forall out,
       outcome (signal fmul E self nu output_units h) = Ok out ->
       arr_data out = flat_map (fun f => scale fmul f (arr_data m)) fs) /\
    (tn <> None -> tw = None \/ pixell_imported E = true ->
     exists out, outcome (signal fmul E self nu output_units h) = Ok out).
Proof.
  intros Hinit Hconv.
  pose proof Hinit as Hc. apply constructed_signal in Hc.
  destruct Hc as (m & s0 & s1 & s2 & Hh & Hm & Hself & Hpad & Hnside & Hsig).
  exists m. split; [exact Hm|].
  assert (Hiu : input_units self = iu) by (rewrite Hself; reflexivity).
  assert (Hw : wcs self = tw) by (rewrite Hself; reflexivity).
  rewrite Hiu in Hconv. split.
  - intros out Hout.
    destruct tw as [w|] eqn:Htw.
    + destruct (pixell_imported E) eqn:Hp.
      * rewrite (Hsig nu output_units fs (or_intror eq_refl) Hconv) in Hout.
        destruct ((s0 =? 1) || (length fs <=? 1)); [|discriminate].
        injection Hout as <-. reflexivity.
      * rewrite (@signal_outcome self nu output_units h m Hm) in Hout.
        rewrite (@signal_value_without_pixell self m nu output_units w Hw Hp) in Hout.
        discriminate.
    + rewrite (Hsig nu output_units fs (or_introl eq_refl) Hconv) in Hout.
      destruct ((s0 =? 1) || (length fs <=? 1)); [|discriminate].
      injection Hout as <-. reflexivity.
  - intros Htn Hpix. destruct tn as [n|]; [|congruence].
    destruct (Hnside n eq_refl) as (_ & -> & _).
    rewrite (Hsig nu output_units fs Hpix Hconv). cbn [Nat.eqb orb].
    eexists. reflexivity.
Qed.


(** A sequence of calls only allocates. *)
Lemma signal_calls_extend (self : PA) (calls : list (freq_arg num * string)) :
  forall h, exists extra, signal_calls fmul E self calls h = h ++ extra.
Proof.
  induction calls as [|[nu ou] calls IH]; intros h; simpl.
  - exists []. now rewrite app_nil_r.
  - destruct (signal_extends self nu ou h) as [e1 H1]. rewrite H1.
    destruct (IH (h ++ e1)) as [e2 H2]. exists (e1 ++ e2).
    rewrite H2. now rewrite app_assoc.
Qed.


(** ** Exceptions of the constructor *)

Lemma read_alm_raises (fn : string) (hdu : hdu_arg) (e : exn) :
  hp_read_alm E fn hdu = Raise e ->
  e = OSError \/ e = ValueError "inhomogeneous shape".
Proof.
  unfold hp_read_alm. destruct hdu as [k|hs].
  - destruct (read_hdu E fn k); [discriminate|].
    intros H. injection H as <-. now left.
  - destruct (read_all E fn hs) as [[|a [|b r]]|].
    + cbn [forallb]. discriminate.
    + discriminate.
    + destruct (forallb _ _); [discriminate|].
      intros H. injection H as <-. now right.
    + intros H. injection H as <-. now left.
Qed.

Lemma alm2map_raises (alm : ndarray cplx W) (n : nat) (e : exn) :
  hp_alm2map E alm n = Raise e ->
  e = ValueError "healpy: bad input" \/ e = TypeError "healpy: bad alm".
Proof.
  unfold hp_alm2map.
  destruct (alm2map_accepts E (alm_sets alm) n); cbn [negb].
  - destruct (arr_shape alm) as [|a [|b [|c r]]]; try discriminate;
      intros H; injection H as <-; now right.
  - intros H. injection H as <-. now left.
Qed.

(** The exceptions a construction can end with. *)
Lemma init_raises (fn : string) (tn : option nat) (ts : option (list nat))
    (tw : option W) (iu : string) (pol : bool) (pix : option (list nat))
    (h0 : heap arr) (e : exn) :
  snd (__init__ E fn tn ts tw iu pol pix h0) = Raise e ->
  e = OSError \/ e = ValueError "inhomogeneous shape" \/
  e = ValueError "healpy: bad input" \/ e = TypeError "healpy: bad alm" \/
  e = NameError "enmap" \/ e = AssertionError.
Proof.
  destruct tn as [n|].
  - rewrite init_healpix.
    destruct (hp_read_alm E fn (the_hdu pol)) as [alm|e1] eqn:Hread.
    + destruct (hp_alm2map E alm n) as [m|e2] eqn:Hmap; [discriminate|].
      cbn [snd]. intros H. injection H as <-.
      destruct (alm2map_raises _ _ Hmap); tauto.
    + cbn [snd]. intros H. injection H as <-.
      destruct (read_alm_raises _ _ Hread); tauto.
  - assert (Hread : forall e1, hp_read_alm E fn (the_hdu pol) = Raise e1 ->
              e1 = OSError \/ e1 = ValueError "inhomogeneous shape")
      by (intros e1; apply read_alm_raises).
    destruct ts as [sh|]; [destruct tw as [w|]|].
    + rewrite init_rectangular.
      destruct (hp_read_alm E fn (the_hdu pol)) as [alm|e1].
      * destruct (pixell_imported E); [discriminate|].
        cbn [snd]. intros H. injection H as <-. tauto.
      * cbn [snd]. intros H. injection H as <-.
        destruct (Hread _ eq_refl); tauto.
    + rewrite init_neither by (now right).
      destruct (hp_read_alm E fn (the_hdu pol)) as [alm|e1];
        cbn [snd]; intros H; injection H as <-; [tauto|].
      destruct (Hread _ eq_refl); tauto.
    + rewrite init_neither by (now left).
      destruct (hp_read_alm E fn (the_hdu pol)) as [alm|e1];
        cbn [snd]; intros H; injection H as <-; [tauto|].
      destruct (Hread _ eq_refl); tauto.
Qed.

(** ** Conversion between equal units *)

Lemma convert_units_same (one : num) (u : string) :
  (forall x, conversion_factor E u u x = Some one) ->
  forall nus, convert_units E u u nus = Some (repeat one (length nus)).
Proof.
  intros Hone. induction nus as [|x nus IH]; [reflexivity|].
  cbn [convert_units length repeat]. now rewrite Hone, IH.
Qed.

Lemma scale_by_one (one : num) (d : list num) (n : nat) :
  (forall x, fmul x one = x) ->
  flat_map (fun f => scale fmul f d) (repeat one n) = concat (repeat d n).
Proof.
  intros Hone. induction n as [|n IH]; [reflexivity|].
  cbn [repeat flat_map concat]. rewrite IH. f_equal.
  unfold scale. rewrite (map_ext _ (fun x => x)) by exact Hone.
  apply map_id.
Qed.

End SignalFacts.

(** * The claims *)

Section Claims.

Variables (num cplx W : Type).
Variable fmul : num -> num -> num.
Variable E : Externals num cplx W.

(** C1.  On every constructed object and for every frequency argument,
    the array [signal] returns holds, frequency slice after frequency
    slice, the cached map multiplied by the conversion factor of that
    frequency; and on an object built with [target_nside] the call does
    return whenever the conversion yields its factors (and pixell is
    importable when a wcs was passed as well). *)
Theorem signal_values (fn : string) (tn : option nat)
    (ts : option (list nat)) (tw : option W) (iu : string) (pol : bool)
    (pix : option (list nat)) (h0 h : heap (ndarray num W))
    (self : PrecomputedAlms W) (nu : freq_arg num) (output_units : string)
    (fs : list num) :
  __init__ E fn tn ts tw iu pol pix h0 = (h, Ok self) ->
  convert_units E (input_units self) output_units (frequencies nu) = Some fs ->
  exists m,
    nth_error h (output_map self) = Some m /\
    (forall out,
       outcome (signal fmul E self nu output_units h) = Ok out ->
       arr_data out = flat_map (fun f => scale fmul f (arr_data m)) fs) /\
    (tn <> None -> tw = None \/ pixell_imported E = true ->
     exists out, outcome (signal fmul E self nu output_units h) = Ok out).
Proof. apply signal_data_after_init. Qed.

(** C6.  The cached map is created once, by the constructor, and no
    call to [signal] changes it: after any sequence of calls, returning
    or raising, the store is the store the constructor left followed by
    the arrays the calls created, and [output_map] still refers to the
    same contents. *)
Theorem output_map_never_mutated (fn : string) (tn : option nat)
    (ts : option (list nat)) (tw : option W) (iu : string) (pol : bool)
    (pix : option (list nat)) (h0 h : heap (ndarray num W))
    (self : PrecomputedAlms W) :
  __init__ E fn tn ts tw iu pol pix h0 = (h, Ok self) ->
  forall calls, exists m extra,
    h = h0 ++ [m] /\
    output_map self = length h0 /\
    signal_calls fmul E self calls h = h ++ extra /\
    nth_error (signal_calls fmul E self calls h) (output_map self) = Some m.
Proof.
  intros Hinit calls.
  pose proof Hinit as Hc. apply (constructed_signal fmul) in Hc.
  destruct Hc as (m & s0 & s1 & s2 & Hh & Hm & Hself & _).
  destruct (signal_calls_extend fmul E self calls h) as [extra Hx].
  exists m, extra. repeat split.
  - exact Hh.
  - rewrite Hself. reflexivity.
  - exact Hx.
  - rewrite Hx. apply nth_error_extend, Hm.
Qed.

(** C7.  Calling [signal] again with the same arguments gives the same
    outcome, the same array or the same exception, whatever calls were
    made on the object in between. *)
Theorem signal_idempotent (fn : string) (tn : option nat)
    (ts : option (list nat)) (tw : option W) (iu : string) (pol : bool)
    (pix : option (list nat)) (h0 h : heap (ndarray num W))
    (self : PrecomputedAlms W) :
  __init__ E fn tn ts tw iu pol pix h0 = (h, Ok self) ->
  forall calls nu output_units,
    outcome (signal fmul E self nu output_units
               (signal_calls fmul E self calls h))
    = outcome (signal fmul E self nu output_units h).
Proof.
  intros Hinit calls nu output_units.
  pose proof Hinit as Hc. apply (constructed_signal fmul) in Hc.
  destruct Hc as (m & s0 & s1 & s2 & Hh & Hm & _).
  destruct (signal_calls_extend fmul E self calls h) as [extra Hx].
  rewrite (@signal_outcome _ _ _ fmul E self nu output_units h m Hm).
  apply signal_outcome. rewrite Hx. apply nth_error_extend, Hm.
Qed.

(** C8.  When the conversion utility returns 1 between equal units and
    1 is a right unit of the float product, [signal] called with
    [output_units] equal to the object's [input_units] returns, for each
    frequency, the values of the cached map; on an object built with
    [target_nside] the call does return. *)
Theorem signal_same_units (one : num) (fn : string) (tn : option nat)
    (ts : option (list nat)) (tw : option W) (iu : string) (pol : bool)
    (pix : option (list nat)) (h0 h : heap (ndarray num W))
    (self : PrecomputedAlms W) (nu : freq_arg num) :
  (forall x, fmul x one = x) ->
  (forall x, conversion_factor E iu iu x = Some one) ->
  __init__ E fn tn ts tw iu pol pix h0 = (h, Ok self) ->
  exists m,
    nth_error h (output_map self) = Some m /\
    (forall out,
       outcome (signal fmul E self nu (input_units self) h) = Ok out ->
       arr_data out = concat (repeat (arr_data m) (length (frequencies nu)))) /\
    (tn <> None -> tw = None \/ pixell_imported E = true ->
     exists out, outcome (signal fmul E self nu (input_units self) h) = Ok out).
Proof.
  intros Hmul Hone Hinit.
  assert (Hiu : input_units self = iu).
  { pose proof Hinit as Hc. apply init_inv in Hc.
    destruct Hc as (m & _ & -> & _). reflexivity. }
  rewrite Hiu.
  pose proof (convert_units_same E iu Hone (frequencies nu)) as Hconv.
  rewrite <- Hiu in Hconv at 1.
  destruct (signal_data_after_init fmul E _ _ _ _ _ _ _ _ nu iu Hinit Hconv)
    as (m & Hm & Hdata & Hret).
  exists m. split; [exact Hm|]. split; [|exact Hret].
  intros out Hout. rewrite (Hdata out Hout).
  apply scale_by_one, Hmul.
Qed.

(** C9.  Two constructions that differ only in [pixel_indices] leave the
    same store, end the same way, and when they succeed their objects
    refer to the same cached map and every call to [signal] behaves the
    same on both. *)
Theorem pixel_indices_inert (fn : string) (tn : option nat)
    (ts : option (list nat)) (tw : option W) (iu : string) (pol : bool)
    (pix1 pix2 : option (list nat)) (h0 : heap (ndarray num W)) :
  fst (__init__ E fn tn ts tw iu pol pix1 h0)
  = fst (__init__ E fn tn ts tw iu pol pix2 h0) /\
  match snd (__init__ E fn tn ts tw iu pol pix1 h0),
        snd (__init__ E fn tn ts tw iu pol pix2 h0) with
  | Ok self1, Ok self2 =>
      output_map self1 = output_map self2 /\
      forall nu output_units h,
        signal fmul E self1 nu output_units h
        = signal fmul E self2 nu output_units h
  | Raise e1, Raise e2 => e1 = e2
  | _, _ => False
  end.
Proof.
  destruct tn as [n|]; [|destruct ts as [sh|]; [destruct tw as [w|]|]].
  - rewrite !init_healpix.
    destruct (hp_read_alm E fn (the_hdu pol)) as [alm|e]; [|now split].
    destruct (hp_alm2map E alm n) as [m|e]; now split.
  - rewrite !init_rectangular.
    destruct (hp_read_alm E fn (the_hdu pol)) as [alm|e]; [|now split].
    destruct (pixell_imported E); now split.
  - rewrite !init_neither by (now right).
    destruct (hp_read_alm E fn (the_hdu pol)); now split.
  - rewrite !init_neither by (now left).
    destruct (hp_read_alm E fn (the_hdu pol)); now split.
Qed.

(** C10.  The final [raise ValueError] of the grid dispatch is never
    reached: no construction ends with that exception, and when
    [target_nside] is absent and the rectangular descriptor is
    incomplete the construction ends with the failed assertion of the
    first branch (or earlier, with the failure of the file read). *)
Theorem grid_value_error_unreachable (fn : string) (tn : option nat)
    (ts : option (list nat)) (tw : option W) (iu : string) (pol : bool)
    (pix : option (list nat)) (h0 : heap (ndarray num W)) :
  snd (__init__ E fn tn ts tw iu pol pix h0)
  <> Raise (ValueError
              "You must specify either nside or both of shape and wcs") /\
  (tn = None -> ts = None \/ tw = None ->
   snd (__init__ E fn tn ts tw iu pol pix h0)
   = match hp_read_alm E fn (the_hdu pol) with
     | Ok _ => Raise AssertionError
     | Raise e => Raise e
     end).
Proof.
  split.
  - intros H. apply init_raises in H.
    destruct H as [H|[H|[H|[H|[H|H]]]]]; discriminate.
  - intros -> Hmiss. rewrite init_neither by exact Hmiss.
    destruct (hp_read_alm E fn (the_hdu pol)); reflexivity.
Qed.

(** C2 (amended).  A construction that succeeds was given [target_nside]
    or the complete pair of [target_shape] and [target_wcs]; without
    [target_nside] and with an incomplete pair it ends, once the file is
    read, with the failed assertion; with [target_nside] it takes the
    HEALPix branch whether or not a rectangular descriptor comes with
    it, so passing both is not an error. *)
Theorem construction_grid_dispatch (fn : string) (ts : option (list nat))
    (tw : option W) (iu : string) (pol : bool) (pix : option (list nat))
    (h0 : heap (ndarray num W)) (alm : ndarray cplx W) :
  hp_read_alm E fn (the_hdu pol) = Ok alm ->
  (forall tn h self,
     __init__ E fn tn ts tw iu pol pix h0 = (h, Ok self) ->
     tn <> None \/ (ts <> None /\ tw <> None)) /\
  (ts = None \/ tw = None ->
   __init__ E fn None ts tw iu pol pix h0 = (h0, Raise AssertionError)) /\
  (forall n, alm2map_accepts E (alm_sets alm) n = true ->
     exists m,
       hp_alm2map E alm n = Ok m /\
       __init__ E fn (Some n) ts tw iu pol pix h0
       = (h0 ++ [m],
          Ok (new_object fn (Some n) ts tw iu pol pix (length h0)))).
Proof.
  intros Hread. repeat split.
  - intros tn h self Hinit.
    destruct tn as [n|]; [left; discriminate|right].
    destruct ts as [sh|]; [destruct tw as [w|]|].
    + split; discriminate.
    + rewrite init_neither, Hread in Hinit by (now right). discriminate.
    + rewrite init_neither, Hread in Hinit by (now left). discriminate.
  - intros Hmiss. rewrite init_neither, Hread by exact Hmiss. reflexivity.
  - intros n Hacc.
    destruct (alm2map_returns E fn pol n Hread Hacc) as [m Hm].
    exists m. split; [exact Hm|].
    rewrite init_healpix, Hread, Hm. reflexivity.
Qed.

(** C3 (amended).  When the file is readable and healpy accepts the
    arguments, constructing with only [target_nside] succeeds and caches
    a map of shape [(3, 12 nside^2)] with polarization and of the 1-D
    shape [(12 nside^2,)] without. *)
Theorem healpix_output_map_shape (fn : string) (n : nat) (iu : string)
    (pol : bool) (pix : option (list nat)) (h0 : heap (ndarray num W))
    (alm : ndarray cplx W) :
  hp_read_alm E fn (the_hdu pol) = Ok alm ->
  alm2map_accepts E (alm_sets alm) n = true ->
  exists m,
    __init__ E fn (Some n) None None iu pol pix h0
    = (h0 ++ [m], Ok (new_object fn (Some n) None None iu pol pix (length h0)))
    /\ arr_shape m = if pol then [3; 12 * n * n] else [12 * n * n].
Proof.
  intros Hread Hacc.
  destruct (alm2map_returns E fn pol n Hread Hacc) as [m Hm].
  exists m.
  assert (Hinit : __init__ E fn (Some n) None None iu pol pix h0
                  = (h0 ++ [m],
                     Ok (new_object fn (Some n) None None iu pol pix
                           (length h0))))
    by (rewrite init_healpix, Hread, Hm; reflexivity).
  split; [exact Hinit|].
  apply init_inv in Hinit. destruct Hinit as (m' & Hh & _ & _ & _ & Hshape).
  apply app_inj_tail in Hh. destruct Hh as [_ <-].
  apply (Hshape n eq_refl).
Qed.

(** C4 (amended).  On an object built with [target_nside], when the
    conversion yields its factors (and pixell is importable if a wcs was
    passed as well), [signal] returns: for a bare frequency or a
    sequence of exactly one frequency a 2-D array [(nComponents, nPix)],
    for a sequence of [K] frequencies with [K <> 1] a 3-D array
    [(K, nComponents, nPix)]. *)
Theorem healpix_signal_shape (fn : string) (n : nat)
    (ts : option (list nat)) (tw : option W) (iu : string) (pol : bool)
    (pix : option (list nat)) (h0 h : heap (ndarray num W))
    (self : PrecomputedAlms W) (nu : freq_arg num) (output_units : string)
    (fs : list num) :
  __init__ E fn (Some n) ts tw iu pol pix h0 = (h, Ok self) ->
  tw = None \/ pixell_imported E = true ->
  convert_units E iu output_units (frequencies nu) = Some fs ->
  exists out,
    outcome (signal fmul E self nu output_units h) = Ok out /\
    arr_shape out
    = if length (frequencies nu) =? 1
      then [if pol then 3 else 1; 12 * n * n]
      else [length (frequencies nu); if pol then 3 else 1; 12 * n * n].
Proof.
  intros Hinit Hpix Hconv.
  pose proof Hinit as Hc. apply (constructed_signal fmul) in Hc.
  destruct Hc as (m & s0 & s1 & s2 & _ & _ & _ & _ & Hnside & Hsig).
  destruct (Hnside n eq_refl) as (_ & -> & -> & ->).
  rewrite (Hsig nu output_units fs Hpix Hconv).
  rewrite <- (convert_units_length E _ _ _ Hconv).
  cbn [Nat.eqb orb]. rewrite Nat.mul_1_l.
  eexists. split; [reflexivity|]. reflexivity.
Qed.

End Claims.

(** * The claims on the sample instance *)

(** C1 on the sample HEALPix object, two frequencies. *)
Lemma signal_values_witness :
  exists m,
    nth_error sample_store (output_map sample_object) = Some m /\
    (forall out,
       outcome (signal Nat.mul sample_externals sample_object
                  (Sequence [100; 150]) "K_CMB" sample_store) = Ok out ->
       arr_data out
       = flat_map (fun f => scale Nat.mul f (arr_data m)) [101; 151]) /\
    (Some 1 <> None ->
     @None unit = None \/ pixell_imported sample_externals = true ->
     exists out,
       outcome (signal Nat.mul sample_externals sample_object
                  (Sequence [100; 150]) "K_CMB" sample_store) = Ok out).
Proof.
  apply (signal_values Nat.mul sample_externals "alms.fits" (Some 1) None None
           "uK_RJ" false None [] (Sequence [100; 150]) "K_CMB");
    reflexivity.
Defined.

(** C6 on the sample HEALPix object, after two calls. *)
Lemma output_map_never_mutated_witness :
  exists m extra,
    sample_store = [] ++ [m] /\
    output_map sample_object = 0 /\
    signal_calls Nat.mul sample_externals sample_object sample_calls
      sample_store
    = sample_store ++ extra /\
    nth_error
      (signal_calls Nat.mul sample_externals sample_object sample_calls
         sample_store)
      (output_map sample_object) = Some m.
Proof.
  apply (output_map_never_mutated Nat.mul sample_externals "alms.fits"
           (Some 1) None None "uK_RJ" false None []).
  reflexivity.
Defined.

(** C7 on the sample HEALPix object: a third call repeats the first. *)
Lemma signal_idempotent_witness :
  outcome (signal Nat.mul sample_externals sample_object
             (Sequence [100; 150]) "K_CMB"
             (signal_calls Nat.mul sample_externals sample_object sample_calls
                sample_store))
  = outcome (signal Nat.mul sample_externals sample_object
               (Sequence [100; 150]) "K_CMB" sample_store).
Proof.
  apply (signal_idempotent Nat.mul sample_externals "alms.fits"
           (Some 1) None None "uK_RJ" false None []).
  reflexivity.
Defined.

(** C8 on the sample HEALPix object: 1 is the unit of the product of
    naturals and the sample conversion is 1 between equal units. *)
Lemma signal_same_units_witness :
  exists m,
    nth_error sample_store (output_map sample_object) = Some m /\
    (forall out,
       outcome (signal Nat.mul sample_externals sample_object
                  (Sequence [100; 150]) (input_units sample_object)
                  sample_store) = Ok out ->
       arr_data out = concat (repeat (arr_data m) 2)) /\
    (Some 1 <> None ->
     @None unit = None \/ pixell_imported sample_externals = true ->
     exists out,
       outcome (signal Nat.mul sample_externals sample_object
                  (Sequence [100; 150]) (input_units sample_object)
                  sample_store) = Ok out).
Proof.
  apply (signal_same_units Nat.mul sample_externals (one := 1) "alms.fits"
           (Some 1) None None "uK_RJ" false None [] (Sequence [100; 150])).
  - exact Nat.mul_1_r.
  - intros x. reflexivity.
  - reflexivity.
Defined.

(** C10 on a construction without any descriptor: the assertion. *)
Lemma grid_value_error_unreachable_witness :
  snd (__init__ sample_externals "alms.fits" None None None "uK_RJ" false
         None [])
  = Raise AssertionError.
Proof.
  destruct (grid_value_error_unreachable sample_externals "alms.fits" None
              None None "uK_RJ" false None []) as [_ H].
  exact (H eq_refl (or_introl eq_refl)).
Defined.

(** C2 (amended) on a construction without any descriptor. *)
Lemma construction_grid_dispatch_witness :
  __init__ sample_externals "alms.fits" None None None "uK_RJ" false None []
  = ([], Raise AssertionError).
Proof.
  destruct (construction_grid_dispatch sample_externals "alms.fits" None None
              "uK_RJ" false None [] (alm := sample_alm) eq_refl)
    as (_ & H & _).
  apply H. left. reflexivity.
Defined.

(** C3 (amended) at nside 1 without polarization. *)
Lemma healpix_output_map_shape_witness :
  exists m,
    __init__ sample_externals "alms.fits" (Some 1) None None "uK_RJ" false
      None []
    = ([] ++ [m], Ok sample_object)
    /\ arr_shape m = [12 * 1 * 1].
Proof.
  apply (healpix_output_map_shape sample_externals "alms.fits" 1 "uK_RJ"
           false None [] (alm := sample_alm)); reflexivity.
Defined.

(** C4 (amended) on the sample HEALPix object, two frequencies. *)
Lemma healpix_signal_shape_witness :
  exists out,
    outcome (signal Nat.mul sample_externals sample_object
               (Sequence [100; 150]) "K_CMB" sample_store) = Ok out /\
    arr_shape out = [2; 1; 12 * 1 * 1].
Proof.
  apply (healpix_signal_shape Nat.mul sample_externals "alms.fits" 1 None
           (tw := None) "uK_RJ" false None [] (Sequence [100; 150]) "K_CMB"
           (fs := [101; 151])).
  - reflexivity.
  - left. reflexivity.
  - reflexivity.
Defined.

(** C2 as stated fails: a construction given both [target_nside] and the
    pair [target_shape], [target_wcs] raises nothing; it returns an object
    whose map is the HEALPix one. *)
Lemma both_descriptors_construct :
  exists h self m,
    __init__ sample_externals "alms.fits" (Some 1) (Some [2; 2]) (Some tt)
      "uK_RJ" false None []
    = (h, Ok self) /\
    nside self = Some 1 /\ shape self = Some [2; 2] /\ wcs self = Some tt /\
    nth_error h (output_map self) = Some m /\ arr_shape m = [12].
Proof.
  do 3 eexists. repeat split; vm_compute; reflexivity.
Qed.

(** C3 as stated fails: without polarization and with [target_nside]
    64 the cached map has the 1-D shape [(49152,)], not [(1, 49152)]. *)
Lemma unpolarized_map_is_one_dimensional :
  exists h self m,
    sample_healpix 64 false = (h, Ok self) /\
    nth_error h (output_map self) = Some m /\
    arr_shape m = [12 * 64 * 64] /\
    12 * 64 * 64 = 49152 /\
    arr_shape m <> [1; 12 * 64 * 64].
Proof.
  unfold sample_healpix. rewrite init_healpix.
  change (hp_read_alm sample_externals "alms.fits" (the_hdu false))
    with (Ok sample_alm).
  destruct (alm2map_returns sample_externals "alms.fits" false (alm := sample_alm)
              64 eq_refl eq_refl) as [m Hm].
  rewrite Hm. exists [m], (new_object "alms.fits" (Some 64) None None "uK_RJ"
                             false None 0), m.
  destruct (alm2map_shape _ _ _ Hm) as (_ & _ & Hshape & _).
  rewrite (Hshape 3 eq_refl).
  repeat split; try reflexivity.
  intros H. discriminate H.
Qed.

(** C4 as stated fails: a sequence of one frequency gives a 2-D array,
    not an array of shape [(1, nComponents, nPix)]. *)
Lemma single_frequency_sequence_is_2d :
  exists out,
    call_signal (sample_healpix 1 false) (Sequence [100]) "K_CMB" = Ok out /\
    arr_shape out = [1; 12] /\
    arr_shape out <> [1; 1; 12].
Proof.
  eexists. split; [vm_compute; reflexivity|].
  split; [reflexivity | discriminate].
Qed.

(** C5 on a rectangular grid.  With polarization and two frequencies the
    tiled map has [2 * 3] leading entries against [2] factors and the
    product raises; without polarization a single frequency returns the
    bare [(ny, nx)] grid and two frequencies return [(2, ny, nx)], neither
    with a component axis. *)
Theorem rectangular_signal_loses_frequency_axis :
  call_signal (sample_rectangular [2; 2] true) (Sequence [100; 150]) "K_CMB"
  = Raise (ValueError "operands could not be broadcast together") /\
  (exists out,
     call_signal (sample_rectangular [2; 2] false) (Scalar 100) "K_CMB" = Ok out
     /\ arr_shape out = [2; 2]) /\
  (exists out,
     call_signal (sample_rectangular [2; 2] false) (Sequence [100; 150]) "K_CMB"
     = Ok out
     /\ arr_shape out = [2; 2; 2]).
Proof.
  split; [vm_compute; reflexivity|].
  split; eexists; split; vm_compute; reflexivity.
Qed.

(** * Further properties of the constructor *)

Section ConstructorFacts.

Variables (num cplx W : Type).
Variable E : Externals num cplx W.

Lemma last_two_app (B : Type) (pre : list B) (a b : B) :
  last_two (pre ++ [a; b]) = [a; b].
Proof.
  unfold last_two. rewrite length_app. cbn [length].
  replace (length pre + 2 - 2) with (length pre + 0) by lia.
  rewrite skipn_app, Nat.add_0_r, skipn_all.
  replace (length pre - length pre) with 0 by lia. reflexivity.
Qed.




(** X2.  When the guarded import of pixell failed, a rectangular
    construction raises [NameError] at [enmap.empty]; nothing has been
    allocated. *)
Theorem rectangular_construction_needs_pixell (fn : string) (sh : list nat)
    (w : W) (iu : string) (pol : bool) (pix : option (list nat))
    (h0 : heap (ndarray num W)) (alm : ndarray cplx W) :
  hp_read_alm E fn (the_hdu pol) = Ok alm ->
  pixell_imported E = false ->
  __init__ E fn None (Some sh) (Some w) iu pol pix h0
  = (h0, Raise (NameError "enmap")).
Proof.
  intros Hread Hpix. now rewrite init_rectangular, Hread, Hpix.
Qed.


(** X4.  Without polarization only HDU 1 is read: whatever HDUs 2 and 3
    hold, a readable HDU 1 that healpy accepts gives a 1-D map whose pixel
    [p] is the synthesis of that single coefficient set at [p], and the
    rectangular descriptor passed alongside plays no part in it. *)
Theorem unpolarized_healpix_map (fn : string) (n : nat)
    (ts : option (list nat)) (tw : option W) (iu : string)
    (pix : option (list nat)) (h0 : heap (ndarray num W)) (a : list cplx) :
  read_hdu E fn 1 = Some a ->
  alm2map_accepts E [a] n = true ->
  __init__ E fn (Some n) ts tw iu false pix h0
  = (h0 ++ [mk_ndarray [nside2npix n]
              (map (healpix_pixel E [a] n 0) (seq 0 (nside2npix n))) None],
     Ok (new_object fn (Some n) ts tw iu false pix (length h0))).
Proof.
  intros Hread Hacc. rewrite init_healpix.
  unfold the_hdu, hp_read_alm. rewrite Hread.
  unfold hp_alm2map, alm_sets. cbn [arr_shape arr_data].
  now rewrite Hacc.
Qed.

(** X5.  With polarization the three HDUs are read into one [(3, n)]
    array and the cached map is the [(3, npix)] array of the three
    components synthesised from the three coefficient sets together. *)
Theorem polarized_healpix_map (fn : string) (n : nat)
    (ts : option (list nat)) (tw : option W) (iu : string)
    (pix : option (list nat)) (h0 : heap (ndarray num W))
    (a1 a2 a3 : list cplx) :
  read_hdu E fn 1 = Some a1 ->
  read_hdu E fn 2 = Some a2 ->
  read_hdu E fn 3 = Some a3 ->
  length a2 = length a1 ->
  length a3 = length a1 ->
  alm2map_accepts E [a1; a2; a3] n = true ->
  __init__ E fn (Some n) ts tw iu true pix h0
  = (h0 ++ [mk_ndarray [3; nside2npix n]
              (flat_map (fun c => map (healpix_pixel E [a1; a2; a3] n c)
                                      (seq 0 (nside2npix n)))
                        [0; 1; 2])
              None],
     Ok (new_object fn (Some n) ts tw iu true pix (length h0))).
Proof.
  intros H1 H2 H3 L2 L3 Hacc. rewrite init_healpix.
  unfold the_hdu, hp_read_alm. cbn [read_all]. rewrite H1, H2, H3.
  cbn [hd forallb length]. rewrite L2, L3, Nat.eqb_refl. cbn [andb].
  unfold hp_alm2map, alm_sets. cbn [arr_shape arr_data concat seq map].
  assert (Hsets : [chunk (length a1) 0 (a1 ++ a2 ++ a3 ++ []);
                   chunk (length a1) 1 (a1 ++ a2 ++ a3 ++ []);
                   chunk (length a1) 2 (a1 ++ a2 ++ a3 ++ [])]
                  = [a1; a2; a3]).
  { rewrite chunk_app_zero by reflexivity.
    rewrite !chunk_app_succ by reflexivity.
    rewrite chunk_app_zero by exact L2.
    rewrite chunk_app_succ by exact L2.
    rewrite chunk_app_zero by exact L3. reflexivity. }
  rewrite Hsets, Hacc. reflexivity.
Qed.

(** X6.  Only the last two entries of [target_shape] are used: a shape
    with leading entries gives the same store as its last two entries
    alone. *)
Theorem rectangular_shape_suffix (fn : string) (pre : list nat)
    (ny nx : nat) (w : W) (iu : string) (pol : bool)
    (pix : option (list nat)) (h0 : heap (ndarray num W)) :
  fst (__init__ E fn None (Some (pre ++ [ny; nx])) (Some w) iu pol pix h0)
  = fst (__init__ E fn None (Some [ny; nx]) (Some w) iu pol pix h0).
Proof.
  rewrite !init_rectangular, last_two_app.
  change (last_two [ny; nx]) with [ny; nx].
  destruct (hp_read_alm E fn (the_hdu pol)); [|reflexivity].
  destruct (pixell_imported E); reflexivity.
Qed.

End ConstructorFacts.

(** * Further properties of signal *)

Section SignalMoreFacts.

Variables (num cplx W : Type).
Variable fmul : num -> num -> num.
Variable E : Externals num cplx W.

Lemma convert_units_fails (u1 u2 : string) (x : num) (nus : list num) :
  In x nus -> conversion_factor E u1 u2 x = None ->
  convert_units E u1 u2 nus = None.
Proof.
  intros Hin Hx. induction nus as [|y nus IH]; [contradiction|].
  cbn [convert_units]. destruct Hin as [-> | Hin].
  - now rewrite Hx.
  - rewrite (IH Hin). now destruct (conversion_factor E u1 u2 y).
Qed.

(** A call that returns had pixell at hand if it needed it, and got its
    conversion factors. *)
Lemma signal_returns_inv (self : PrecomputedAlms W) (m out : ndarray num W)
    (nu : freq_arg num) (output_units : string) :
  signal_value fmul E self m nu output_units = Ok out ->
  (wcs self = None \/ pixell_imported E = true) /\
  exists fs,
    convert_units E (input_units self) output_units (frequencies nu) = Some fs.
Proof.
  unfold signal_value, pysm_convert_units. intros H. split.
  - destruct (wcs self); [|now left].
    destruct (pixell_imported E); [now right | discriminate].
  - destruct (is_not_None (wcs self) && negb (pixell_imported E));
      [discriminate|].
    destruct (convert_units E (input_units self) output_units (frequencies nu))
      as [fs|]; [now exists fs | discriminate].
Qed.

(** The map cached on the HEALPix branch is a plain array. *)
Lemma healpix_map_untagged (fn : string) (n : nat) (ts : option (list nat))
    (tw : option W) (iu : string) (pol : bool) (pix : option (list nat))
    (h0 : heap (ndarray num W)) (m : ndarray num W)
    (self : PrecomputedAlms W) :
  __init__ E fn (Some n) ts tw iu pol pix h0 = (h0 ++ [m], Ok self) ->
  arr_wcs m = None.
Proof.
  rewrite init_healpix.
  destruct (hp_read_alm E fn (the_hdu pol)) as [alm|e]; [|discriminate].
  destruct (hp_alm2map E alm n) as [m'|e] eqn:Hmap; [|discriminate].
  intros H. injection H as H _. apply app_inj_tail in H. destruct H as [_ ->].
  now destruct (alm2map_shape _ _ _ Hmap) as (_ & Htag & _).
Qed.

(** X7.  On a rectangular grid with polarization the tiled map has three
    leading entries per frequency: a call with at most one frequency
    returns the [(3 N, ny, nx)] array scaled by the factor, a call with
    two or more frequencies raises in the product. *)
Theorem rectangular_polarized_signal (fn : string) (sh : list nat)
    (ny nx : nat) (w : W) (iu : string) (pix : option (list nat))
    (h0 h : heap (ndarray num W)) (self : PrecomputedAlms W)
    (nu : freq_arg num) (output_units : string) (fs : list num) :
  __init__ E fn None (Some sh) (Some w) iu true pix h0 = (h, Ok self) ->
  last_two sh = [ny; nx] ->
  convert_units E iu output_units (frequencies nu) = Some fs ->
  exists m,
    nth_error h (output_map self) = Some m /\
    outcome (signal fmul E self nu output_units h)
    = if length fs <=? 1
      then Ok (mk_ndarray [3 * length fs; ny; nx]
                 (flat_map (fun f => scale fmul f (arr_data m)) fs) (Some w))
      else Raise (ValueError "operands could not be broadcast together").
Proof.
  intros Hinit Hlast Hconv.
  pose proof Hinit as Hc. apply (constructed_signal fmul) in Hc.
  destruct Hc as (m & s0 & s1 & s2 & Hh & Hm & Hself & Hpad & _ & Hsig).
  rewrite init_rectangular in Hinit.
  destruct (hp_read_alm E fn (the_hdu true)) as [alm|e]; [|discriminate].
  destruct (pixell_imported E) eqn:Hpix; [|discriminate].
  injection Hinit as Hh' _. rewrite Hh in Hh'.
  apply app_inj_tail in Hh'. destruct Hh' as [_ Hmap].
  assert (Hshape : arr_shape m = [3; ny; nx])
    by (rewrite <- Hmap; cbn [curvedsky_map arr_shape]; now rewrite Hlast).
  rewrite Hshape in Hpad. injection Hpad as <- <- <-.
  exists m. split; [exact Hm|].
  rewrite (Hsig nu output_units fs (or_intror eq_refl) Hconv).
  cbn [Nat.eqb orb].
  replace (3 * length fs =? 1) with false
    by (symmetry; apply Nat.eqb_neq; lia).
  replace (result_wcs self m) with (Some w)
    by (rewrite Hself; reflexivity).
  reflexivity.
Qed.

(** X8.  On a rectangular grid without polarization the single
    component takes the place of the frequency axis: one frequency
    returns the bare [(ny, nx)] grid, [N <> 1] frequencies return
    [(N, ny, nx)], each slice scaled by its factor. *)
Theorem rectangular_unpolarized_signal (fn : string) (sh : list nat)
    (ny nx : nat) (w : W) (iu : string) (pix : option (list nat))
    (h0 h : heap (ndarray num W)) (self : PrecomputedAlms W)
    (nu : freq_arg num) (output_units : string) (fs : list num) :
  __init__ E fn None (Some sh) (Some w) iu false pix h0 = (h, Ok self) ->
  last_two sh = [ny; nx] ->
  convert_units E iu output_units (frequencies nu) = Some fs ->
  exists m,
    nth_error h (output_map self) = Some m /\
    outcome (signal fmul E self nu output_units h)
    = Ok (mk_ndarray
            (if length fs =? 1 then [ny; nx] else [length fs; ny; nx])
            (flat_map (fun f => scale fmul f (arr_data m)) fs) (Some w)).
Proof.
  intros Hinit Hlast Hconv.
  pose proof Hinit as Hc. apply (constructed_signal fmul) in Hc.
  destruct Hc as (m & s0 & s1 & s2 & Hh & Hm & Hself & Hpad & _ & Hsig).
  rewrite init_rectangular in Hinit.
  destruct (hp_read_alm E fn (the_hdu false)) as [alm|e]; [|discriminate].
  destruct (pixell_imported E) eqn:Hpix; [|discriminate].
  injection Hinit as Hh' _. rewrite Hh in Hh'.
  apply app_inj_tail in Hh'. destruct Hh' as [_ Hmap].
  assert (Hshape : arr_shape m = [1; ny; nx])
    by (rewrite <- Hmap; cbn [curvedsky_map arr_shape]; now rewrite Hlast).
  rewrite Hshape in Hpad. injection Hpad as <- <- <-.
  exists m. split; [exact Hm|].
  rewrite (Hsig nu output_units fs (or_intror eq_refl) Hconv).
  cbn [Nat.eqb orb]. rewrite Nat.mul_1_l.
  replace (result_wcs self m) with (Some w)
    by (rewrite Hself; reflexivity).
  reflexivity.
Qed.

(** X9.  One frequency the conversion utility rejects fails the whole
    call: [signal] raises the conversion error. *)
Theorem unit_error_propagates (fn : string) (tn : option nat)
    (ts : option (list nat)) (tw : option W) (iu : string) (pol : bool)
    (pix : option (list nat)) (h0 h : heap (ndarray num W))
    (self : PrecomputedAlms W) (nu : freq_arg num) (output_units : string)
    (x : num) :
  __init__ E fn tn ts tw iu pol pix h0 = (h, Ok self) ->
  tw = None \/ pixell_imported E = true ->
  In x (frequencies nu) ->
  conversion_factor E iu output_units x = None ->
  outcome (signal fmul E self nu output_units h) = Raise UnitError.
Proof.
  intros Hinit Hpix Hin Hx.
  pose proof Hinit as Hc. apply (constructed_signal fmul) in Hc.
  destruct Hc as (m & s0 & s1 & s2 & _ & Hm & Hself & _).
  rewrite (@signal_outcome _ _ _ fmul E self nu output_units h m Hm).
  unfold signal_value, pysm_convert_units.
  replace (is_not_None (wcs self) && negb (pixell_imported E)) with false.
  - replace (input_units self) with iu by (rewrite Hself; reflexivity).
    now rewrite (convert_units_fails iu output_units x _ Hin Hx).
  - rewrite Hself. cbn [wcs new_object].
    destruct Hpix as [-> | ->]; [reflexivity|].
    symmetry. apply andb_false_r.
Qed.

(** X10.  An object built with [target_nside] and a wcs, in a session
    where pixell could not be imported, is constructed without complaint
    but every call to [signal] raises [NameError] at [enmap.enmap]. *)
Theorem signal_needs_pixell_when_wcs (fn : string) (tn : option nat)
    (ts : option (list nat)) (w : W) (iu : string) (pol : bool)
    (pix : option (list nat)) (h0 h : heap (ndarray num W))
    (self : PrecomputedAlms W) (nu : freq_arg num) (output_units : string) :
  __init__ E fn tn ts (Some w) iu pol pix h0 = (h, Ok self) ->
  pixell_imported E = false ->
  outcome (signal fmul E self nu output_units h) = Raise (NameError "enmap").
Proof.
  intros Hinit Hpix.
  pose proof Hinit as Hc. apply (constructed_signal fmul) in Hc.
  destruct Hc as (m & s0 & s1 & s2 & _ & Hm & Hself & _).
  rewrite (@signal_outcome _ _ _ fmul E self nu output_units h m Hm).
  apply (@signal_value_without_pixell _ _ _ fmul E self m nu output_units w);
    [rewrite Hself; reflexivity | exact Hpix].
Qed.

(** X11.  The array a call returns is an ndmap carrying [target_wcs]
    when the object was given one, and a plain array otherwise. *)
Theorem signal_result_tag (fn : string) (tn : option nat)
    (ts : option (list nat)) (tw : option W) (iu : string) (pol : bool)
    (pix : option (list nat)) (h0 h : heap (ndarray num W))
    (self : PrecomputedAlms W) (nu : freq_arg num) (output_units : string)
    (out : ndarray num W) :
  __init__ E fn tn ts tw iu pol pix h0 = (h, Ok self) ->
  outcome (signal fmul E self nu output_units h) = Ok out ->
  arr_wcs out = tw.
Proof.
  intros Hinit Hout.
  pose proof Hinit as Hc. apply (constructed_signal fmul) in Hc.
  destruct Hc as (m & s0 & s1 & s2 & Hh & Hm & Hself & _ & _ & Hsig).
  pose proof Hout as Hv.
  rewrite (@signal_outcome _ _ _ fmul E self nu output_units h m Hm) in Hv.
  apply signal_returns_inv in Hv. destruct Hv as [Hpix [fs Hconv]].
  replace (wcs self) with tw in Hpix by (rewrite Hself; reflexivity).
  replace (input_units self) with iu in Hconv by (rewrite Hself; reflexivity).
  rewrite (Hsig nu output_units fs Hpix Hconv) in Hout.
  destruct ((s0 =? 1) || (length fs <=? 1)); [|discriminate].
  injection Hout as <-. cbn [arr_wcs]. unfold result_wcs.
  replace (wcs self) with tw by (rewrite Hself; reflexivity).
  destruct tw as [w|]; [reflexivity|].
  destruct tn as [n|].
  - rewrite Hh in Hinit. eapply healpix_map_untagged. exact Hinit.
  - rewrite init_neither in Hinit by (now right).
    destruct (hp_read_alm E fn (the_hdu pol)); discriminate.
Qed.

(** X12.  Every array a call returns is well formed, and it holds one
    scaled copy of the cached map per frequency: its number of elements is
    the number of frequencies times the size of the cached map. *)
Theorem signal_result_well_formed (fn : string) (tn : option nat)
    (ts : option (list nat)) (tw : option W) (iu : string) (pol : bool)
    (pix : option (list nat)) (h0 h : heap (ndarray num W))
    (self : PrecomputedAlms W) (nu : freq_arg num) (output_units : string)
    (out : ndarray num W) :
  __init__ E fn tn ts tw iu pol pix h0 = (h, Ok self) ->
  outcome (signal fmul E self nu output_units h) = Ok out ->
  well_formed out /\
  exists m,
    nth_error h (output_map self) = Some m /\
    length (arr_data out) = length (frequencies nu) * length (arr_data m).
Proof.
  intros Hinit Hout.
  pose proof Hinit as Hc. apply (constructed_signal fmul) in Hc.
  destruct Hc as (m & s0 & s1 & s2 & Hh & Hm & Hself & Hpad & _ & Hsig).
  pose proof Hinit as Hi. apply init_inv in Hi.
  destruct Hi as (m' & Hh2 & _ & Hwf & _).
  rewrite Hh in Hh2. apply app_inj_tail in Hh2. destruct Hh2 as [_ <-].
  assert (Hsz : length (arr_data m) = size [s0; s1; s2])
    by (rewrite <- Hpad, size_pad_ones; exact Hwf).
  pose proof Hout as Hv.
  rewrite (@signal_outcome _ _ _ fmul E self nu output_units h m Hm) in Hv.
  apply signal_returns_inv in Hv. destruct Hv as [Hpix [fs Hconv]].
  replace (wcs self) with tw in Hpix by (rewrite Hself; reflexivity).
  replace (input_units self) with iu in Hconv by (rewrite Hself; reflexivity).
  rewrite (Hsig nu output_units fs Hpix Hconv) in Hout.
  destruct ((s0 =? 1) || (length fs <=? 1)); [|discriminate].
  injection Hout as <-.
  assert (Hlen : length (flat_map (fun f => scale fmul f (arr_data m)) fs)
                 = length fs * length (arr_data m)).
  { apply flat_map_const_length. intros f. unfold scale. apply length_map. }
  split.
  - unfold well_formed. cbn [arr_data arr_shape]. rewrite Hlen, Hsz.
    destruct (Nat.eqb_spec (s0 * length fs) 1) as [H1|_].
    + apply Nat.eq_mul_1 in H1. destruct H1 as [-> ->]. simpl. lia.
    + simpl. lia.
  - exists m. split; [exact Hm|]. cbn [arr_data]. rewrite Hlen.
    now rewrite (convert_units_length E _ _ _ Hconv).
Qed.

End SignalMoreFacts.

(** * The further properties on the sample instances *)


(** X2 on the session without pixell. *)
Lemma rectangular_construction_needs_pixell_witness :
  __init__ sample_bare "alms.fits" None (Some [2; 2]) (Some tt) "uK_RJ" false
    None []
  = ([], Raise (NameError "enmap")).
Proof.
  apply (rectangular_construction_needs_pixell sample_bare "alms.fits" [2; 2]
           tt "uK_RJ" false None [] (alm := sample_alm)); reflexivity.
Defined.


(** X4 at nside 1. *)
Lemma unpolarized_healpix_map_witness :
  __init__ sample_externals "alms.fits" (Some 1) None None "uK_RJ" false
    None []
  = ([] ++ [mk_ndarray [nside2npix 1]
              (map (healpix_pixel sample_externals [[1; 2; 3]] 1 0)
                   (seq 0 (nside2npix 1))) None],
     Ok sample_object).
Proof.
  apply (unpolarized_healpix_map sample_externals "alms.fits" 1 None None
           "uK_RJ" None []); reflexivity.
Defined.

(** X5 at nside 1. *)
Lemma polarized_healpix_map_witness :
  __init__ sample_externals "alms.fits" (Some 1) None None "uK_RJ" true
    None []
  = ([] ++ [mk_ndarray [3; nside2npix 1]
              (flat_map
                 (fun c => map (healpix_pixel sample_externals
                                  [[1; 2; 3]; [2; 3; 4]; [3; 4; 5]] 1 c)
                               (seq 0 (nside2npix 1)))
                 [0; 1; 2])
              None],
     Ok (new_object "alms.fits" (Some 1) None None "uK_RJ" true None 0)).
Proof.
  apply (polarized_healpix_map sample_externals "alms.fits" 1 None None
           "uK_RJ" None []); reflexivity.
Defined.

(** X7 on a polarized [(2, 2)] grid, two frequencies: the call raises. *)
Lemma rectangular_polarized_signal_witness :
  exists m,
    nth_error (fst (sample_rectangular [2; 2] true))
      (output_map (sample_rectangular_object true)) = Some m /\
    outcome (signal Nat.mul sample_externals (sample_rectangular_object true)
               (Sequence [100; 150]) "K_CMB"
               (fst (sample_rectangular [2; 2] true)))
    = Raise (ValueError "operands could not be broadcast together").
Proof.
  apply (rectangular_polarized_signal Nat.mul sample_externals "alms.fits"
           [2; 2] (ny := 2) (nx := 2) tt "uK_RJ" None [] (Sequence [100; 150]) "K_CMB"
           (fs := [101; 151])); reflexivity.
Defined.

(** X8 on an unpolarized [(2, 2)] grid, two frequencies. *)
Lemma rectangular_unpolarized_signal_witness :
  exists m,
    nth_error (fst (sample_rectangular [2; 2] false))
      (output_map (sample_rectangular_object false)) = Some m /\
    outcome (signal Nat.mul sample_externals (sample_rectangular_object false)
               (Sequence [100; 150]) "K_CMB"
               (fst (sample_rectangular [2; 2] false)))
    = Ok (mk_ndarray [2; 2; 2]
            (flat_map (fun f => scale Nat.mul f (arr_data m)) [101; 151])
            (Some tt)).
Proof.
  apply (rectangular_unpolarized_signal Nat.mul sample_externals "alms.fits"
           [2; 2] (ny := 2) (nx := 2) tt "uK_RJ" None [] (Sequence [100; 150]) "K_CMB"
           (fs := [101; 151])); reflexivity.
Defined.

(** X9: no conversion to "parsec". *)
Lemma unit_error_propagates_witness :
  outcome (signal Nat.mul sample_bare sample_object (Sequence [100; 150])
             "parsec" sample_store)
  = Raise UnitError.
Proof.
  apply (unit_error_propagates Nat.mul sample_bare "alms.fits" (Some 1) None
           (tw := None) "uK_RJ" false None [] (Sequence [100; 150]) "parsec"
           150).
  - reflexivity.
  - left. reflexivity.
  - right. left. reflexivity.
  - reflexivity.
Defined.

(** X10: both descriptors, no pixell. *)
Lemma signal_needs_pixell_when_wcs_witness :
  outcome (signal Nat.mul sample_bare sample_both (Scalar 100) "uK_RJ"
             sample_store)
  = Raise (NameError "enmap").
Proof.
  apply (signal_needs_pixell_when_wcs Nat.mul sample_bare "alms.fits" (Some 1)
           (Some [2; 2]) tt "uK_RJ" false None [] (Scalar 100) "uK_RJ");
    reflexivity.
Defined.

(** X11: both descriptors, pixell imported: the result carries the wcs. *)
Lemma signal_result_tag_witness :
  arr_wcs (mk_ndarray [1; 12]
             [101; 202; 303; 404; 505; 606; 707; 808; 909; 1010; 1111; 1212]
             (Some tt))
  = Some tt.
Proof.
  apply (signal_result_tag Nat.mul sample_externals "alms.fits" (Some 1)
           (Some [2; 2]) (Some tt) "uK_RJ" false None [] (h := sample_store)
           (self := sample_both) (Scalar 100) "K_CMB").
  - reflexivity.
  - vm_compute. reflexivity.
Defined.

(** X12 on the sample HEALPix object, two frequencies. *)
Lemma signal_result_well_formed_witness :
  well_formed
    (mk_ndarray (W:=unit) [2; 1; 12]
       (flat_map (fun f => scale Nat.mul f [1; 2; 3; 4; 5; 6; 7; 8; 9; 10; 11; 12])
                 [101; 151])
       None) /\
  exists m,
    nth_error sample_store (output_map sample_object) = Some m /\
    length (flat_map
              (fun f => scale Nat.mul f [1; 2; 3; 4; 5; 6; 7; 8; 9; 10; 11; 12])
              [101; 151])
    = length (frequencies (Sequence [100; 150])) * length (arr_data m).
Proof.
  apply (signal_result_well_formed Nat.mul sample_externals "alms.fits"
           (Some 1) None None "uK_RJ" false None [] (h := sample_store)
           (self := sample_object) (Sequence [100; 150]) "K_CMB").
  - reflexivity.
  - vm_compute. reflexivity.
Defined.
